(** * DG8: an Arduino UNO as externally triggered digital delay generator

    A shallow embedding of [DG8.ino] (ATmega328P, avr-gcc) and the
    properties of its timed-sequence engine: the tick clock, the delay
    list, the compare-match sequencer, the trigger arbiter and the
    EEPROM persistence of the list.

    Conventions of the target: [int] and [short] are 16-bit two's
    complement, [unsigned int] is 16-bit, [unsigned long] is 32-bit,
    [float] and [double] are both IEEE-754 binary32. *)

From Stdlib Require Import ZArith List Bool Lia String Ascii.
From Stdlib Require Import Floats.SpecFloat.
From stdpp Require Import base list.
Import ListNotations.

Local Open Scope Z_scope.

(** ** Machine integers *)

Module Int.

(** Wrap-around of the integer types of the target. *)
Definition u8 (z : Z) : Z := z mod 256.
Definition u16 (z : Z) : Z := z mod 65536.
Definition s16 (z : Z) : Z := (z + 32768) mod 65536 - 32768.
Definition u32 (z : Z) : Z := z mod 4294967296.

End Int.

(** ** binary32 arithmetic

    The target has no FPU; avr-libc computes [float] in software with
    IEEE-754 binary32 operands.  The operations are those of the
    standard library's executable specification, at precision 24 and
    maximal exponent 128. *)

Module F32.

Definition prec : Z := 24.
Definition emax : Z := 128.

Definition float : Type := spec_float.

Definition mul : float -> float -> float := SFmul prec emax.
Definition div : float -> float -> float := SFdiv prec emax.
Definition add : float -> float -> float := SFadd prec emax.

(** The float nearest to [m * 2^e]. *)
Definition of_scaled (m e : Z) : float := binary_normalize prec emax m e false.

(** Conversion of an integer, as in [(float) n]. *)
Definition of_Z (n : Z) : float := of_scaled n 0.

(** Integral part, rounding toward zero; infinities and NaN have none. *)
Definition trunc (f : float) : option Z :=
  match f with
  | S754_zero _ => Some 0
  | S754_finite s m e =>
      let a := match e with
               | Zneg p => Z.pos m / 2 ^ Z.pos p
               | _ => Z.pos m * 2 ^ e
               end in
      Some (if s then - a else a)
  | S754_infinity _ | S754_nan => None
  end.

(** The same float, field by field. *)
Definition same (a b : float) : bool :=
  match a, b with
  | S754_zero s, S754_zero s' => Bool.eqb s s'
  | S754_infinity s, S754_infinity s' => Bool.eqb s s'
  | S754_nan, S754_nan => true
  | S754_finite s m e, S754_finite s' m' e' =>
      Bool.eqb s s' && Pos.eqb m m' && Z.eqb e e'
  | _, _ => false
  end.

(** [(unsigned long) f]: the integral part when it fits 32 bits; C
    leaves every other conversion undefined. *)
Definition to_ulong (f : float) : option Z :=
  match trunc f with
  | Some n => if (0 <=? n) && (n <? 4294967296) then Some n else None
  | None => None
  end.

End F32.

(** ** Tick clock *)

Definition clock : Z := 16000.      (* Arduino clock rate in kHz *)
Definition TimerOffset : Z := 58.   (* Trigger offset in ticks *)

(** [float TicksToMicros(int ticks)]: the argument is converted to the
    16-bit [int] parameter, and [ticks + TimerOffset] is an [int] sum. *)
Definition TicksToMicros (ticks : Z) : F32.float :=
  let ticks := Int.s16 ticks in
  F32.div (F32.mul (F32.of_Z (Int.s16 (ticks + TimerOffset))) (F32.of_Z 1000))
          (F32.of_Z clock).

(** [unsigned long MicrosToTicks(float micro)]; [None] when the cast
    to [unsigned long] is undefined. *)
Definition MicrosToTicks (micro : F32.float) : option Z :=
  match F32.to_ulong
          (F32.add (F32.div (F32.mul micro (F32.of_Z clock)) (F32.of_Z 1000))
                   (F32.of_scaled 1 (-1))) with
  | Some n => Some (Int.u32 (n - TimerOffset))
  | None => None
  end.

(** ** Outcome of a command

    A command of the operator interface either completes, or leaves
    what C defines: it stores outside an array, its scan for the insert
    position runs off the addressable words without finding one, or it
    casts a float that [unsigned long] cannot hold. *)

Inductive fault : Type :=
| StoreOutside (array : string) (index : Z)
| ScanRunsOff
| CastOutOfRange.

Inductive result (A : Type) : Type :=
| Ok (a : A)
| Undefined (f : fault).
Arguments Ok {A} a.
Arguments Undefined {A} f.

Definition bind {A B : Type} (c : result A) (k : A -> result B) : result B :=
  match c with
  | Ok a => k a
  | Undefined f => Undefined f
  end.

Notation "'do' x <- c ; k" := (bind c (fun x => k))
  (at level 10, x name, c at level 100, k at level 200).

(** ** Memory and registers *)

(** Number of slots of [Delays] and [DOut]. *)
Definition capacity : Z := 10.

(** A line sent to the serial port: a text, or the table of active
    delays that [ListDelays] prints (ticks and pin values per row). *)
Inductive line : Type :=
| Println (s : string)
| Table (rows : list (Z * Z)).

Record mcu : Type := MCU {
  Delays : list Z;    (* unsigned int Delays[10] *)
  DOut : list Z;      (* short int DOut[10] *)
  _imax : Z;          (* short int: number of active delays *)
  i : Z;              (* volatile short int: counter for delays *)
  TCNT1 : Z;          (* timer 1 counter *)
  OCR1A : Z;          (* timer 1 compare match register A *)
  TCCR1B : Z;         (* timer 1 control: clock select *)
  EIMSK : Z;          (* external interrupt mask *)
  EIFR : Z;           (* external interrupt flags *)
  PORTD : Z;          (* output pins D0-D7 *)
  EEPROM : Z -> Z;    (* non-volatile bytes by address *)
  Serial : list line  (* what was printed, oldest first *)
}.

Definition set_Delays v st := MCU v (DOut st) (_imax st) (i st) (TCNT1 st) (OCR1A st) (TCCR1B st) (EIMSK st) (EIFR st) (PORTD st) (EEPROM st) (Serial st).
Definition set_DOut v st := MCU (Delays st) v (_imax st) (i st) (TCNT1 st) (OCR1A st) (TCCR1B st) (EIMSK st) (EIFR st) (PORTD st) (EEPROM st) (Serial st).
Definition set_imax v st := MCU (Delays st) (DOut st) v (i st) (TCNT1 st) (OCR1A st) (TCCR1B st) (EIMSK st) (EIFR st) (PORTD st) (EEPROM st) (Serial st).
Definition set_i v st := MCU (Delays st) (DOut st) (_imax st) v (TCNT1 st) (OCR1A st) (TCCR1B st) (EIMSK st) (EIFR st) (PORTD st) (EEPROM st) (Serial st).
Definition set_TCNT1 v st := MCU (Delays st) (DOut st) (_imax st) (i st) v (OCR1A st) (TCCR1B st) (EIMSK st) (EIFR st) (PORTD st) (EEPROM st) (Serial st).
Definition set_OCR1A v st := MCU (Delays st) (DOut st) (_imax st) (i st) (TCNT1 st) v (TCCR1B st) (EIMSK st) (EIFR st) (PORTD st) (EEPROM st) (Serial st).
Definition set_TCCR1B v st := MCU (Delays st) (DOut st) (_imax st) (i st) (TCNT1 st) (OCR1A st) v (EIMSK st) (EIFR st) (PORTD st) (EEPROM st) (Serial st).
Definition set_EIMSK v st := MCU (Delays st) (DOut st) (_imax st) (i st) (TCNT1 st) (OCR1A st) (TCCR1B st) v (EIFR st) (PORTD st) (EEPROM st) (Serial st).
Definition set_EIFR v st := MCU (Delays st) (DOut st) (_imax st) (i st) (TCNT1 st) (OCR1A st) (TCCR1B st) (EIMSK st) v (PORTD st) (EEPROM st) (Serial st).
Definition set_PORTD v st := MCU (Delays st) (DOut st) (_imax st) (i st) (TCNT1 st) (OCR1A st) (TCCR1B st) (EIMSK st) (EIFR st) v (EEPROM st) (Serial st).
Definition set_EEPROM v st := MCU (Delays st) (DOut st) (_imax st) (i st) (TCNT1 st) (OCR1A st) (TCCR1B st) (EIMSK st) (EIFR st) (PORTD st) v (Serial st).
Definition print (l : line) st := MCU (Delays st) (DOut st) (_imax st) (i st) (TCNT1 st) (OCR1A st) (TCCR1B st) (EIMSK st) (EIFR st) (PORTD st) (EEPROM st) (Serial st ++ [l]).

(** The program indexes its arrays without bounds checks.  A load from
    an index outside [0..9] yields the 16-bit word that memory holds
    beside the array; what those words are is not fixed by the program,
    so every operation takes them as an input.  A store outside the
    array overwrites another object and is reported as a [fault]. *)
Record beside : Type := Beside {
  beside_Delays : Z -> Z;
  beside_DOut : Z -> Z
}.

Definition in_array (k : Z) : bool := (0 <=? k) && (k <? capacity).

Definition load (outside : Z -> Z) (a : list Z) (k : Z) : Z :=
  if in_array k then a !!! Z.to_nat k else outside k.

Definition store (name : string) (a : list Z) (k v : Z) : result (list Z) :=
  if in_array k then Ok (<[Z.to_nat k := v]> a) else Undefined (StoreOutside name k).

(** [Delays[k]] as an [unsigned int], [DOut[k]] as a [short]. *)
Definition Delays_at (m : beside) (a : list Z) (k : Z) : Z :=
  load (fun k => Int.u16 (beside_Delays m k)) a k.
Definition DOut_at (m : beside) (a : list Z) (k : Z) : Z :=
  load (fun k => Int.s16 (beside_DOut m k)) a k.

(** ** Sequencer and trigger arbiter *)

(** [ISR(TIMER1_COMPA_vect)]: timer 1 reached the OCR1A value. *)
Definition ISR_TIMER1_COMPA (m : beside) (st : mcu) : mcu :=
  let st := set_PORTD (Int.u8 (DOut_at m (DOut st) (i st))) st in   (* PORTD = DOut[i]; *)
  let st := set_i (Int.s16 (i st + 1)) st in                         (* ++i *)
  set_OCR1A (Delays_at m (Delays st) (i st)) st.                     (* OCR1A = Delays[i]; *)

(** [ISR(INT0_vect)]: trigger event on pin 2. *)
Definition ISR_INT0 (st : mcu) : mcu :=
  let st := set_EIMSK 0 st in     (* EIMSK = B00000000; turn off external trigger *)
  set_TCCR1B 1 st.                (* TCCR1B = B00000001; start timer 1 *)

(** [loop()] up to its busy wait, with no serial command pending:
    lines 97 to 101.  Writing a one to a bit of EIFR clears that flag. *)
Definition loop_arm (m : beside) (st : mcu) : mcu :=
  let st := set_TCNT1 0 st in                                  (* TCNT1 = 0; *)
  let st := set_i 0 st in                                      (* i=0; *)
  let st := set_OCR1A (Delays_at m (Delays st) 0) st in        (* OCR1A = Delays[0]; *)
  let st := set_EIFR (Z.ldiff (EIFR st) 1) st in               (* EIFR = 1; *)
  set_EIMSK 1 st.                                              (* EIMSK = B00000001; *)

(** The condition of [while (i<_imax){}]. *)
Definition loop_waits (st : mcu) : bool := i st <? _imax st.

(** [loop()] after its busy wait: line 103. *)
Definition loop_stop (st : mcu) : mcu := set_TCCR1B 0 st.     (* TCCR1B = B00000000; *)

(** ** Delay list commands

    Every command runs between [cli()] and [sei()], so no interrupt
    handler runs inside it; [sCmd.next()] hands it its arguments, here
    already split and converted ([atof], [atoi] are the C library's). *)

(** [ListDelays()]: one row per active delay.  The formatting of the
    rows ([_ftoa], [_itoa], [_itob], [_rtxt]) is left out. *)
Definition ListDelays (m : beside) (st : mcu) : mcu :=
  print (Table (map (fun j => (Delays_at m (Delays st) j, DOut_at m (DOut st) j))
                    (seqZ 0 (_imax st)))) st.

(** [memset(a, c, n)] on an array of 16-bit words, low byte first;
    [conv] reads a word back at the element type. *)
Fixpoint memset (conv : Z -> Z) (c : Z) (n : nat) (a : list Z) : list Z :=
  match n, a with
  | O, _ => a
  | _, [] => []
  | S O, w :: a' => conv (Z.lor (Z.land (Int.u16 w) 65280) (Int.u8 c)) :: a'
  | S (S n'), _ :: a' => conv (Int.u8 c * 257) :: memset conv c n' a'
  end.

(** The body of [for (int k=a; k<=_imax; k++)] in [ClearDelay], run
    [n] times from [k]. *)
Fixpoint clear_shift (m : beside) (n : nat) (k : Z) (D O : list Z)
  : result (list Z * list Z) :=
  match n with
  | O => Ok (D, O)
  | S n' =>
      do D' <- store "Delays" D k (Delays_at m D (k + 1));   (* Delays[k] = Delays[k+1]; *)
      do O' <- store "DOut" O k (DOut_at m O (k + 1));       (* DOut[k] = DOut[k+1]; *)
      clear_shift m n' (k + 1) D' O'
  end.

(** [(char)*arg]: plain [char] is signed on the target. *)
Definition char_value (c : ascii) : Z :=
  let n := Z.of_nat (nat_of_ascii c) in if n <? 128 then n else n - 256.

(** [ClearDelay()]: clear one delay ([arg] is the first character of
    the argument) or all delays (no argument). *)
Definition ClearDelay (m : beside) (arg : option ascii) (st : mcu) : result mcu :=
  do st <-
    match arg with
    | Some c =>
        let a := Int.s16 (char_value c - 65) in              (* Letter A,B,... to number *)
        if (a <? _imax st) && (a >=? 0) then                 (* Value in range? *)
          do DO <- clear_shift m (Z.to_nat (_imax st - a + 1)) a (Delays st) (DOut st);
          let st := set_DOut (snd DO) (set_Delays (fst DO) st) in
          Ok (set_imax (Int.s16 (_imax st - 1)) st)          (* _imax--; *)
        else Ok (print (Println "Not in range") st)
    | None =>
        let st := set_DOut (memset Int.s16 0 9 (DOut st)) st in      (* memset(DOut,0,9); *)
        let st := set_Delays (memset Int.u16 0 9 (Delays st)) st in  (* memset(Delays,0,9); *)
        Ok (set_imax 0 st)                                           (* _imax = 0; *)
    end;
  Ok (ListDelays m st).

(** [while (_ldelay > Delays[j]) {j++;}], where [j] is an [int]: at
    most [fuel] more increments. *)
Fixpoint scan (m : beside) (D : list Z) (_ldelay : Z) (fuel : nat) (j : Z) : result Z :=
  if _ldelay >? Delays_at m D j then
    match fuel with
    | O => Undefined ScanRunsOff
    | S fuel' => scan m D _ldelay fuel' (j + 1)
    end
  else Ok j.

(** [for (k=_imax; k>=j; k--) a[k] = a[k-1];] run [n] times from [k]. *)
Fixpoint make_space (name : string) (at_ : list Z -> Z -> Z) (n : nat) (k : Z)
  (a : list Z) : result (list Z) :=
  match n with
  | O => Ok a
  | S n' =>
      do a' <- store name a k (at_ a (k - 1));
      make_space name at_ n' (k - 1) a'
  end.

(** The second argument of the [A] command: [B] followed by five
    characters for D7 to D3, each setting its bit unless it is the
    digit zero, or a number. *)
Inductive dout_arg : Type :=
| Bits (c7 c6 c5 c4 c3 : ascii)
| Number (n : Z).

Definition bit_of (c : ascii) (k : Z) : Z :=
  if Ascii.eqb c "0" then 0 else Z.shiftl 1 k.

(** [SetDelay()]: set a new delay value. *)
Definition SetDelay (m : beside) (arg1 : option F32.float) (arg2 : option dout_arg)
  (st : mcu) : result mcu :=
  do st <-
    match arg1 with
    | Some micro =>
        do _ldelay <- match MicrosToTicks micro with
                      | Some t => Ok t
                      | None => Undefined CastOutOfRange
                      end;
        do j <- scan m (Delays st) _ldelay (Z.to_nat 32767) 0;         (* Find position in Delays[] *)
        let j := if j >? _imax st then _imax st else j in   (* Make sure position is in range *)
        let n := Z.to_nat (_imax st - j + 1) in
        do D <- make_space "Delays" (Delays_at m) n (_imax st) (Delays st);
        do D <- store "Delays" D j (Int.u16 _ldelay);       (* Delays[j] = _ldelay; *)
        let _dout :=
          match arg2 with
          | Some (Bits c7 c6 c5 c4 c3) =>
              Z.lor (Z.lor (Z.lor (Z.lor (bit_of c7 7) (bit_of c6 6)) (bit_of c5 5))
                           (bit_of c4 4)) (bit_of c3 3)
          | Some (Number n) => Int.s16 (0 + n)              (* _dout += atoi(arg); *)
          | None => Int.s16 (255 - DOut_at m (DOut st) (j - 1))  (* invert every channel *)
          end in
        do O <- make_space "DOut" (DOut_at m) n (_imax st) (DOut st);
        let _dout := Z.lor _dout 4 in                       (* Pull-up D2 (trigger pin) *)
        do O <- store "DOut" O j _dout;                     (* DOut[j] = _dout; *)
        Ok (set_imax (Int.s16 (_imax st + 1)) (set_DOut O (set_Delays D st)))
    | None => Ok (print (Println "Missing delay parameter") st)
    end;
  Ok (ListDelays m st).

(** ** Persistence *)

(** [EEPROM.write(address, value)] and [EEPROM.read(address)]. *)
Definition EEPROM_write (a v : Z) (e : Z -> Z) : Z -> Z :=
  fun x => if x =? a then Int.u8 v else e x.
Definition EEPROM_read (a : Z) (e : Z -> Z) : Z := Int.u8 (e a).

(** Modelled from the spec: [EEPROM_writeAnything] and
    [EEPROM_readAnything] of the header EEPROM_anything.h, which is not
    among the sources.  The persistent layout is one 16-bit count field
    followed by records of a 16-bit tickOffset and a 16-bit
    outputPattern: each call moves the two bytes of its 16-bit object,
    low byte first, to or from consecutive cells. *)
Definition EEPROM_writeAnything (ee value : Z) (e : Z -> Z) : Z -> Z :=
  EEPROM_write (ee + 1) (Int.u16 value / 256) (EEPROM_write ee (Int.u16 value) e).
Definition EEPROM_readAnything (ee : Z) (e : Z -> Z) : Z :=
  EEPROM_read ee e + 256 * EEPROM_read (ee + 1) e.

Definition _EEPROM_save_position : Z := 0.

(** The body of the loop of [SaveDelays], run [n] times from [j]. *)
Fixpoint save_entries (m : beside) (n : nat) (j pos : Z) (st : mcu) : mcu :=
  match n with
  | O => st
  | S n' =>
      let st := set_EEPROM
                  (EEPROM_writeAnything pos (Delays_at m (Delays st) j) (EEPROM st)) st in
      let pos := pos + 2 in
      let st := set_EEPROM
                  (EEPROM_writeAnything pos (DOut_at m (DOut st) j) (EEPROM st)) st in
      let pos := pos + 2 in
      save_entries m n' (j + 1) pos st
  end.

(** [SaveDelays()]: save delays to EEPROM. *)
Definition SaveDelays (m : beside) (st : mcu) : mcu :=
  let pos := _EEPROM_save_position in
  let st := set_EEPROM (EEPROM_writeAnything pos (_imax st) (EEPROM st)) st in
  let pos := pos + 2 in
  save_entries m (Z.to_nat (_imax st)) 0 pos st.

(** The body of the loop of [LoadDelays], run [n] times from [j]. *)
Fixpoint load_entries (n : nat) (j pos : Z) (st : mcu) : result mcu :=
  match n with
  | O => Ok st
  | S n' =>
      do D <- store "Delays" (Delays st) j (EEPROM_readAnything pos (EEPROM st));
      let st := set_Delays D st in
      let pos := pos + 2 in
      do O <- store "DOut" (DOut st) j (Int.s16 (EEPROM_readAnything pos (EEPROM st)));
      let st := set_DOut O st in
      let pos := pos + 2 in
      load_entries n' (j + 1) pos st
  end.

(** [LoadDelays()]: read delays from EEPROM. *)
Definition LoadDelays (st : mcu) : result mcu :=
  let pos := _EEPROM_save_position in
  let st := set_imax (Int.s16 (EEPROM_readAnything pos (EEPROM st))) st in
  let pos := pos + 2 in
  load_entries (Z.to_nat (_imax st)) 0 pos st.

(** ** Simulated hardware

    The program is driven by two interrupt sources.  [Tick] is one
    period of the timer clock, [Edge] a rising edge on the trigger pin.
    Between two events the foreground is in, or comes back to, the busy
    wait of [loop()]: an event is first served by its handler, then the
    foreground sees the handler's writes. *)

Inductive event : Type := Tick | Edge.

(** An output change: the count of timer 1 at the compare match and
    the value written to PORTD. *)
Definition change : Type := (Z * Z)%type.

(** INT0 is served when its flag and its mask bit are both set; the
    hardware clears the flag on entry of the handler. *)
Definition serve_INT0 (st : mcu) : mcu :=
  if Z.testbit (EIMSK st) 0 && Z.testbit (EIFR st) 0
  then ISR_INT0 (set_EIFR (Z.ldiff (EIFR st) 1) st)
  else st.

(** A rising edge sets the INT0 flag, whatever the mask. *)
Definition raise_INTF0 (st : mcu) : mcu := set_EIFR (Z.lor (EIFR st) 1) st.

Definition edge (st : mcu) : mcu := serve_INT0 (raise_INTF0 st).

(** Timer 1 counts while its clock select is 1 (no prescaling) and
    raises the compare interrupt when the count equals OCR1A. *)
Definition timer_on (st : mcu) : bool := Z.land (TCCR1B st) 7 =? 1.

Definition tick (m : beside) (st : mcu) : mcu * list change :=
  if timer_on st then
    let st := set_TCNT1 (Int.u16 (TCNT1 st + 1)) st in
    if TCNT1 st =? OCR1A st
    then let st' := ISR_TIMER1_COMPA m st in (st', [(TCNT1 st, PORTD st')])
    else (st, [])
  else (st, []).

Definition handle (m : beside) (ev : event) (st : mcu) : mcu * list change :=
  match ev with
  | Tick => tick m st
  | Edge => (edge st, [])
  end.

(** The foreground at [while (i<_imax){}]: it stays there, or leaves
    the wait, stops the timer and runs [loop()] again up to the wait. *)
Definition foreground (m : beside) (st : mcu) : mcu :=
  if loop_waits st then st else serve_INT0 (loop_arm m (loop_stop st)).

Definition step (m : beside) (ev : event) (st : mcu) : mcu * list change :=
  let (st1, out) := handle m ev st in (foreground m st1, out).

Fixpoint run (m : beside) (evs : list event) (st : mcu) : mcu * list change :=
  match evs with
  | [] => (st, [])
  | ev :: evs' =>
      let (st1, out1) := step m ev st in
      let (st2, out2) := run m evs' st1 in
      (st2, out1 ++ out2)
  end.

(** ** The built-in example schedule *)

(** The globals as initialised at lines 49 to 52, before the
    [LoadDelays()] of [setup()] replaces them by what the EEPROM holds,
    with the port and the interrupt registers as [setup()] programs
    them and an erased EEPROM. *)
Definition example : mcu :=
  {| Delays := [13; 75; 149; 228; 0; 0; 0; 0; 0; 0];
     DOut := [248; 0; 248; 0; 0; 0; 0; 0; 0; 0];
     _imax := 4;
     i := 0;
     TCNT1 := 0; OCR1A := 0; TCCR1B := 0;
     EIMSK := 1; EIFR := 0;
     PORTD := 4;
     EEPROM := fun _ => 255;
     Serial := [] |}.

(** Memory that holds zero beside both arrays. *)
Definition zeros : beside := Beside (fun _ => 0) (fun _ => 0).

(** ** Notions of the specification *)

(** The compare-match transition as the specification words it: write
    the pattern at the cursor, increment the cursor, and reprogram the
    compare register only if the cursor is still below the count. *)
Definition compare_match_as_specified (m : beside) (st : mcu) : mcu :=
  let st := set_PORTD (Int.u8 (DOut_at m (DOut st) (i st))) st in
  let st := set_i (Int.s16 (i st + 1)) st in
  if i st <? _imax st then set_OCR1A (Delays_at m (Delays st) (i st)) st else st.

(** A sequence is in flight: the trigger was taken (its handler turned
    edge detection off and started the timer) and the cursor has not
    reached the count. *)
Definition RUNNING (st : mcu) : Prop :=
  Z.testbit (EIMSK st) 0 = false /\ timer_on st = true /\ i st < _imax st.

(** Two states that differ at most by a raised INT0 flag while edge
    detection is off. *)
Definition flag_apart (a b : mcu) : Prop :=
  a = b \/ (Z.testbit (EIMSK b) 0 = false /\ a = raise_INTF0 b).

(** Edge detection is on and the timer is stopped. *)
Definition ARMED (st : mcu) : Prop :=
  Z.testbit (EIMSK st) 0 = true /\ timer_on st = false.

(** ** The delay list as the specification sees it *)

(** Element [p] of an array. *)
Definition at_index (a : list Z) (p : Z) : Z := a !!! Z.to_nat p.



(** Both arrays have their ten slots, every delay is an
    [unsigned int], and the count is between 0 and the capacity. *)
Definition valid_list (st : mcu) : bool :=
  (Z.of_nat (length (Delays st)) =? capacity)
  && (Z.of_nat (length (DOut st)) =? capacity)
  && forallb (fun d => (0 <=? d) && (d <? 65536)) (Delays st)
  && (0 <=? _imax st) && (_imax st <=? capacity).

(** The commands of the serial interface that change the list: [A]
    ([SetDelay]) and [C] ([ClearDelay]), each with the memory it finds
    beside the arrays. *)
Inductive command : Type :=
| Cmd_A (m : beside) (arg1 : option F32.float) (arg2 : option dout_arg)
| Cmd_C (m : beside) (arg : option ascii).

Definition exec (c : command) (st : mcu) : result mcu :=
  match c with
  | Cmd_A m arg1 arg2 => SetDelay m arg1 arg2 st
  | Cmd_C m arg => ClearDelay m arg st
  end.

Fixpoint exec_all (cs : list command) (st : mcu) : result mcu :=
  match cs with
  | [] => Ok st
  | c :: cs' => do st1 <- exec c st; exec_all cs' st1
  end.



(** The bits of the five controlled lines D3 to D7. *)
Definition channel_bits (pattern : Z) : Z := Z.land pattern 248.

(** Six inserts between the delays of the example schedule, at 5, 6,
    7, 8, 10 and 12 us, each with the inverted pattern of the entry
    before it: they fill the list. *)
Definition fill : list command :=
  map (fun us => Cmd_A zeros (Some (F32.of_Z us)) None) [5; 6; 7; 8; 10; 12].

(** The tick values that timer 1 and [Delays] can hold. *)
Definition in_tick_range (t : Z) : bool := (0 <=? t) && (t <=? 65535).

(** [p] holds for the [n] integers from [lo] on. *)
Fixpoint holds_from (p : Z -> bool) (n : nat) (lo : Z) : bool :=
  match n with
  | O => true
  | S n' => if p lo then holds_from p n' (lo + 1) else false
  end.

(** A valid list whose pin values are [short]s. *)
Definition well_typed (st : mcu) : bool :=
  valid_list st && forallb (fun d => (-32768 <=? d) && (d <? 32768)) (DOut st).

(** ** Further notions *)



(** ** Start-up *)





(** ** Text output

    [char buf[17]] is the buffer of the formatting functions, which
    reach it through a pointer; [ptr] is the pointer's distance from
    the start of the buffer.  A store outside the buffer overwrites
    another object and is reported as a [fault], like a store outside
    the arrays. *)
Definition buf_size : Z := 17.

Definition poke (b : list ascii) (ptr : Z) (c : ascii) : result (list ascii) :=
  if (0 <=? ptr) && (ptr <? buf_size) then Ok (<[Z.to_nat ptr := c]> b)
  else Undefined (StoreOutside "buf" ptr).

(** [_buf[k]], and [txt[k]] with the terminator that ends a string. *)
Definition peek (b : list ascii) (k : Z) : ascii := nth (Z.to_nat k) b zero.

(** The string that [Serial.print] finds in the buffer. *)
Fixpoint c_string (b : list ascii) : list ascii :=
  match b with
  | [] => []
  | c :: b' => if Ascii.eqb c zero then [] else c :: c_string b'
  end.

(** [n] times [*ptr++ = c]. *)
Fixpoint fill_up (n : nat) (c : ascii) (ptr : Z) (b : list ascii)
  : result (Z * list ascii) :=
  match n with
  | O => Ok (ptr, b)
  | S n' => do b' <- poke b ptr c; fill_up n' c (ptr + 1) b'
  end.

(** [n] times [*ptr-- = c]. *)
Fixpoint fill_down (n : nat) (c : ascii) (ptr : Z) (b : list ascii)
  : result (Z * list ascii) :=
  match n with
  | O => Ok (ptr, b)
  | S n' => do b' <- poke b ptr c; fill_down n' c (ptr - 1) b'
  end.

(** [n] times [*ptr++ = *txt++], [txt] being [k] characters into its
    string. *)
Fixpoint copy_up (n : nat) (txt : list ascii) (k : Z) (ptr : Z) (b : list ascii)
  : result (Z * list ascii) :=
  match n with
  | O => Ok (ptr, b)
  | S n' => do b' <- poke b ptr (peek txt k); copy_up n' txt (k + 1) (ptr + 1) b'
  end.

(** [for (k; k>=0; k--) *ptr-- = _buf[k];] run [n] times from [k]. *)
Fixpoint shift_right (n : nat) (k : Z) (ptr : Z) (b : list ascii)
  : result (Z * list ascii) :=
  match n with
  | O => Ok (ptr, b)
  | S n' => do b' <- poke b ptr (peek b k); shift_right n' (k - 1) (ptr - 1) b'
  end.

(** [char *_rtxt(char *_buf, char *txt, int len)]: the string [txt]
    right-aligned in [len] characters.  The stores of the first loop,
    [*_txt++ |= 0], leave [txt] as it is. *)
Definition _rtxt (b : list ascii) (txt : list ascii) (len : Z) : result (list ascii) :=
  let j := Z.of_nat (length txt) in                       (* Find end of txt *)
  do pb <- fill_up (Z.to_nat (len - j)) " " 0 b;          (* Fill left side of _buf with spaces *)
  let i := Z.max 0 (len - j) in
  do pb <- copy_up (Z.to_nat (len - i)) txt 0 (fst pb) (snd pb);  (* Fill right side of _buf with txt *)
  poke (snd pb) (fst pb) zero.                            (* Terminate char array *)

(** The loop over the bits of [_itob], from bit [n - 1] down to bit 0:
    a character for every bit of the mask. *)
Fixpoint put_bits (n : nat) (integer bits : Z) (ptr j : Z) (b : list ascii)
  : result (Z * Z * list ascii) :=
  match n with
  | O => Ok (ptr, j, b)
  | S k =>
      if negb (Z.land bits (Z.shiftl 1 (Z.of_nat k)) =? 0) then      (* Use desired bit-mask *)
        let c := if negb (Z.land integer (Z.shiftl 1 (Z.of_nat k)) =? 0)
                 then "1"%char                            (* Bit is true *)
                 else "0"%char in                         (* Bit is false *)
        do b' <- poke b ptr c;
        put_bits k integer bits (ptr + 1) (j + 1) b'
      else put_bits k integer bits ptr j b
  end.

(** [char *_itob(char *_buf, int integer, int bits, int len)]: the
    bits of [integer] that [bits] selects, after a [B]. *)
Definition _itob (b : list ascii) (integer bits len : Z) : result (list ascii) :=
  do b <- poke b 0 "B";                                   (* Character B to indicate binary number *)
  do pjb <- put_bits 8 integer bits 1 1 b;                (* Loop over bits *)
  let '(ptr, j, b) := pjb in
  let k := j - 1 in                                       (* Length of char array *)
  do pb <- fill_up (Z.to_nat (len - j)) " " ptr b;        (* while (j++ < len) *ptr++ = ' '; *)
  let j := Z.max j len + 1 in
  do b <- poke (snd pb) (fst pb) zero;                    (* Terminate char array *)
  do pb <- shift_right (Z.to_nat (k + 1)) k (fst pb - 1) b;  (* Shift number to right side of _buf *)
  do pb <- fill_down (Z.to_nat j) " " (fst pb) (snd pb);  (* for (j; j>0; j--) *ptr-- = ' '; *)
  Ok (snd pb).

(** [ltoa(val, s, 10)] of the C library: the decimal digits of [val],
    after a minus sign when it is negative.  A [long] has at most ten
    digits. *)
Definition digit (d : Z) : ascii := ascii_of_nat (48 + Z.to_nat d).

Fixpoint digits (fuel : nat) (n : Z) (acc : list ascii) : list ascii :=
  match fuel with
  | O => acc
  | S fuel' =>
      let acc' := digit (n mod 10) :: acc in
      if n / 10 =? 0 then acc' else digits fuel' (n / 10) acc'
  end.

Definition ltoa (val : Z) : list ascii :=
  if val <? 0 then "-"%char :: digits 10 (- val) [] else digits 10 val [].

(** An [unsigned long] passed for a [long]. *)
Definition long_of_ulong (i : Z) : Z :=
  (i + 2147483648) mod 4294967296 - 2147483648.

(** [char *_itoa(char *_buf, unsigned long i, int len)]: the number
    [i] right-aligned in [len] characters.  The loop that moves to the
    end of the number stops at the terminator that [ltoa] has stored,
    the first one in the buffer. *)
Definition _itoa (b : list ascii) (i : Z) (len : Z) : result (list ascii) :=
  let len := if len >? 15 then 15 else len in             (* Limit memory *)
  let num := ltoa (long_of_ulong i) in                    (* Convert integer to string, base 10 *)
  do pb <- copy_up (length num) num 0 0 b;
  do b <- poke (snd pb) (fst pb) zero;
  let j := Z.of_nat (length (c_string b)) in              (* Move to end of integer *)
  let ptr := j in
  let k := j - 1 in                                       (* Length of number *)
  do pb <- fill_up (Z.to_nat (len - j)) " " ptr b;        (* while (j++ < len) *ptr++ = ' '; *)
  let j := Z.max j len + 1 in
  do b <- poke (snd pb) (fst pb) zero;                    (* Terminate char array *)
  do pb <- shift_right (Z.to_nat (k + 1)) k (fst pb - 1) b;  (* Shift number to right side of _buf *)
  do pb <- fill_down (Z.to_nat (j + 1)) " " (fst pb) (snd pb);  (* for (j; j>=0; j--) *ptr-- = ' '; *)
  Ok (snd pb).

(** [(long) f]: the integral part when it fits 32 bits; C leaves every
    other conversion undefined. *)
Definition to_long (f : F32.float) : option Z :=
  match F32.trunc f with
  | Some n => if (-2147483648 <=? n) && (n <? 2147483648) then Some n else None
  | None => None
  end.

Definition cast (o : option Z) : result Z :=
  match o with
  | Some n => Ok n
  | None => Undefined CastOutOfRange
  end.

(** [itoa(val, s, 10)] of the C library; its [val] is an [int]. *)
Definition itoa (val : Z) : list ascii := ltoa (Int.s16 val).

(** [long p[] = {0,10,100,1000,10000,100000}] at index [k]; outside
    the six elements, the [long] that memory holds beside them. *)
Definition p_at (beside_p : Z -> Z) (k : Z) : Z :=
  if (0 <=? k) && (k <? 6) then nth (Z.to_nat k) [0; 10; 100; 1000; 10000; 100000] 0
  else long_of_ulong (beside_p k).

(** The first part of [_ftoa], up to [k = j-1]: the integral part, the
    decimal point and the fraction are written from the start of the
    buffer, and [j] characters are counted; the pointer is [j]
    characters into the buffer throughout.  [abs] negates a negative
    fraction; the product it is given stays below 2^31 in size. *)
Definition _ftoa_number (beside_p : Z -> Z) (b : list ascii) (f : F32.float)
  (precision : Z) : result (Z * list ascii) :=
  let precision := if precision >? 5 then 5 else precision in   (* Limited precision in float conversion *)
  do intpart <- cast (to_long f);                               (* Extract integer part *)
  let num := itoa intpart in                                    (* Convert integer part to string *)
  do pb <- copy_up (length num) num 0 0 b;
  do b <- poke (snd pb) (fst pb) zero;
  let j := Z.of_nat (length (c_string b)) in                    (* Move to end of integer part *)
  if precision =? 0 then Ok (j, b)
  else
    do b <- poke b j ".";                                       (* Add decimal point *)
    let j := j + 1 in
    do fract <- cast (to_long (F32.mul (SFsub F32.prec F32.emax f (F32.of_Z intpart))
                                       (F32.of_Z (p_at beside_p precision))));
    let fract := Z.abs fract in                                 (* Fractional part of number *)
    let num := itoa fract in                                    (* Convert fractional part to string *)
    do pb <- copy_up (length num) num 0 j b;
    do b <- poke (snd pb) (fst pb) zero;
    let j := j + Z.of_nat (length (c_string (drop (Z.to_nat j) b))) in  (* Move to end of fractional part *)
    if fract =? 0 then                                          (* Missing zeros *)
      do pb <- fill_up (Z.to_nat (precision - 1)) "0" j b;      (* Add the missing zeros *)
      Ok (fst pb, snd pb)
    else Ok (j, b).

(** [char *_ftoa(char *_buf, double f, int precision, int len)]: the
    number [f] with [precision] decimal places, right-aligned in [len]
    characters.  A [double] is a binary32 on the target. *)
Definition _ftoa (beside_p : Z -> Z) (b : list ascii) (f : F32.float)
  (precision len : Z) : result (list ascii) :=
  do jb <- _ftoa_number beside_p b f precision;
  let j := fst jb in
  let b := snd jb in
  let k := j - 1 in                                       (* Length of number *)
  do pb <- fill_up (Z.to_nat (len - j)) " " j b;          (* while (j++ < len) *ptr++ = ' '; *)
  let j := Z.max j len + 1 in
  do b <- poke (snd pb) (fst pb) zero;                    (* Terminate char array *)
  do pb <- shift_right (Z.to_nat (k + 1)) k (fst pb - 1) b;  (* Shift number to right side of _buf *)
  do pb <- fill_down (Z.to_nat j) " " (fst pb) (snd pb);  (* for (j; j>0; j--) *ptr-- = ' '; *)
  Ok (snd pb).

(** The two casts of [_ftoa] at four decimal places, for the time of
    [t] ticks: they give the whole microseconds and the sixteenths in
    units of 0.0001 us. *)
Definition ftoa_casts (t : Z) : bool :=
  let f := F32.of_scaled (t + TimerOffset) (-4) in
  let q := (t + TimerOffset) / 16 in
  match to_long f,
        to_long (F32.mul (SFsub F32.prec F32.emax f (F32.of_Z q)) (F32.of_Z 10000)) with
  | Some a, Some c => (a =? q) && (c =? 625 * ((t + TimerOffset) mod 16))
  | _, _ => false
  end.

(** * Properties *)

(** ** Machine integers *)

Module IntFacts.

Lemma u16_range z : 0 <= Int.u16 z < 65536.
Proof. unfold Int.u16. apply Z.mod_pos_bound. lia. Qed.

Lemma s16_range z : -32768 <= Int.s16 z < 32768.
Proof.
  unfold Int.s16. pose proof (Z.mod_pos_bound (z + 32768) 65536). lia.
Qed.

Lemma u8_range z : 0 <= Int.u8 z < 256.
Proof. unfold Int.u8. apply Z.mod_pos_bound. lia. Qed.

Lemma u16_id z : 0 <= z < 65536 -> Int.u16 z = z.
Proof. intros. unfold Int.u16. apply Z.mod_small. lia. Qed.

Lemma s16_id z : -32768 <= z < 32768 -> Int.s16 z = z.
Proof. intros. unfold Int.s16. rewrite Z.mod_small; lia. Qed.

Lemma s16_u16 z : 0 <= z < 65536 -> Int.u16 (Int.s16 z) = z.
Proof.
  intros H. unfold Int.s16, Int.u16.
  destruct (Z_lt_ge_dec z 32768).
  - rewrite (Z.mod_small (z + 32768)) by lia.
    rewrite Z.mod_small; lia.
  - replace (z + 32768) with ((z - 32768) + 1 * 65536) by lia.
    rewrite Z.mod_add by lia.
    rewrite (Z.mod_small (z - 32768)) by lia.
    replace (z - 32768 - 32768) with (z + (-1) * 65536) by lia.
    rewrite Z.mod_add by lia. apply Z.mod_small. lia.
Qed.

Lemma u16_s16 z : -32768 <= z < 32768 -> Int.s16 (Int.u16 z) = z.
Proof.
  intros H. unfold Int.s16, Int.u16.
  destruct (Z_lt_ge_dec z 0).
  - replace z with ((z + 65536) + (-1) * 65536) at 1 by lia.
    rewrite Z.mod_add by lia.
    rewrite (Z.mod_small (z + 65536)) by lia.
    replace (z + 65536 + 32768) with ((z + 32768) + 1 * 65536) by lia.
    rewrite Z.mod_add by lia. rewrite Z.mod_small; lia.
  - rewrite (Z.mod_small z) by lia. rewrite Z.mod_small; lia.
Qed.

End IntFacts.

(** ** Arrays *)

Lemma in_array_true k : in_array k = true <-> 0 <= k < capacity.
Proof. unfold in_array. rewrite andb_true_iff, Z.leb_le, Z.ltb_lt. tauto. Qed.

Lemma in_array_false k : in_array k = false <-> k < 0 \/ capacity <= k.
Proof. unfold in_array. rewrite andb_false_iff, Z.leb_gt, Z.ltb_ge. tauto. Qed.

Lemma load_inside outside a k :
  0 <= k < capacity -> load outside a k = a !!! Z.to_nat k.
Proof. intros H. unfold load. apply in_array_true in H. now rewrite H. Qed.

Lemma load_outside outside a k :
  k < 0 \/ capacity <= k -> load outside a k = outside k.
Proof. intros H. unfold load. apply in_array_false in H. now rewrite H. Qed.

Lemma store_Ok name a k v a' :
  store name a k v = Ok a' ->
  0 <= k < capacity /\ a' = <[Z.to_nat k := v]> a.
Proof.
  unfold store. destruct (in_array k) eqn:E; intros H; inversion H.
  apply in_array_true in E. auto.
Qed.

Lemma store_inside name a k v :
  0 <= k < capacity -> store name a k v = Ok (<[Z.to_nat k := v]> a).
Proof. intros H. unfold store. apply in_array_true in H. now rewrite H. Qed.

Lemma load_insert outside (a : list Z) k v p :
  Z.of_nat (length a) = capacity -> 0 <= k < capacity ->
  load outside (<[Z.to_nat k := v]> a) p = if p =? k then v else load outside a p.
Proof.
  intros L K. unfold load. destruct (Z.eqb_spec p k) as [->|N].
  - apply in_array_true in K as K'. rewrite K'.
    apply list_lookup_total_insert_eq. lia.
  - destruct (in_array p) eqn:E; [|reflexivity].
    apply in_array_true in E.
    apply list_lookup_total_insert_ne. lia.
Qed.

(** ** Sequencer *)

Lemma run_app m evs1 evs2 st :
  run m (evs1 ++ evs2) st =
  let (st1, out1) := run m evs1 st in
  let (st2, out2) := run m evs2 st1 in (st2, out1 ++ out2).
Proof.
  revert st. induction evs1 as [|ev evs1 IH]; intros st; simpl.
  - now destruct (run m evs2 st).
  - destruct (step m ev st) as [st1 out1]. rewrite IH.
    destruct (run m evs1 st1) as [st2 out2].
    destruct (run m evs2 st2) as [st3 out3].
    now rewrite app_assoc.
Qed.

(** While the timer is stopped and the foreground waits, timer clock
    periods change nothing. *)
Lemma run_ticks_stopped m n st :
  timer_on st = false -> loop_waits st = true ->
  run m (repeat Tick n) st = (st, []).
Proof.
  intros T W. induction n as [|n IH]; simpl; [reflexivity|].
  unfold step, handle, tick, foreground. rewrite T, W. now rewrite IH.
Qed.

(** C1: for the built-in example schedule, a trigger at tick 0 makes
    the output lines take 0b11111000 at tick 13, 0 at tick 75,
    0b11111000 at tick 149 and 0 at tick 228, and nothing changes
    afterwards: at the fourth compare match the cursor reaches the
    count and the foreground stops the timer. *)
Theorem C1_example_schedule_trace (m : beside) (n : nat) :
  let armed := loop_arm m example in
  let before := fst (run m (Edge :: repeat Tick 227) armed) in
  let after := run m (Edge :: repeat Tick (228 + n)) armed in
  snd after = [(13, 248); (75, 0); (149, 248); (228, 0)]
  /\ i (fst (handle m Tick before)) = _imax before
  /\ _imax before = 4
  /\ TCCR1B (fst after) = 0
  /\ timer_on (fst after) = false.
Proof.
  intros armed before after.
  assert (E : run m (Edge :: repeat Tick 228) armed =
              (set_PORTD 0 armed, [(13, 248); (75, 0); (149, 248); (228, 0)]))
    by (vm_compute; reflexivity).
  assert (A : after = (set_PORTD 0 armed, [(13, 248); (75, 0); (149, 248); (228, 0)])).
  { unfold after. rewrite repeat_app.
    change (Edge :: repeat Tick 228 ++ repeat Tick n)
      with ((Edge :: repeat Tick 228) ++ repeat Tick n).
    rewrite run_app, E, run_ticks_stopped by reflexivity.
    reflexivity. }
  rewrite A. repeat split; vm_compute; reflexivity.
Qed.

(** C2 as stated fails.  In the run of the example schedule the
    handler is entered for the fourth time at count 228 with the
    cursor at 3.  It takes the cursor to the count and all the same
    loads the compare register, with the slot after the last active
    delay, where the transition of the specification leaves the
    register alone. *)
Lemma C2_counterexample :
  let st := set_TCNT1 228
              (fst (run zeros (Edge :: repeat Tick 227) (loop_arm zeros example))) in
  i st = 3 /\ OCR1A st = 228
  /\ i (ISR_TIMER1_COMPA zeros st) = _imax st
  /\ OCR1A (ISR_TIMER1_COMPA zeros st) = 0
  /\ OCR1A (compare_match_as_specified zeros st) = 228
  /\ ISR_TIMER1_COMPA zeros st <> compare_match_as_specified zeros st.
Proof.
  repeat split; try (vm_compute; reflexivity).
  intros H. apply (f_equal OCR1A) in H. vm_compute in H. discriminate H.
Qed.

(** C2, amended: at every compare match the handler writes the pattern
    at the cursor to the output lines, increments the cursor, and loads
    the compare register with the delay at the incremented cursor
    unconditionally, also when the cursor has reached the count; it
    touches nothing else. *)
Theorem C2_compare_match_handler (m : beside) (st : mcu) :
  let st' := ISR_TIMER1_COMPA m st in
  PORTD st' = Int.u8 (DOut_at m (DOut st) (i st))
  /\ i st' = Int.s16 (i st + 1)
  /\ OCR1A st' = Delays_at m (Delays st) (i st')
  /\ Delays st' = Delays st /\ DOut st' = DOut st /\ _imax st' = _imax st
  /\ TCNT1 st' = TCNT1 st /\ TCCR1B st' = TCCR1B st
  /\ EIMSK st' = EIMSK st /\ EIFR st' = EIFR st.
Proof. cbv zeta. unfold ISR_TIMER1_COMPA. simpl. repeat split. Qed.

(** ** Trigger arbiter *)

Lemma ldiff_lor_1 x : Z.ldiff (Z.lor x 1) 1 = Z.ldiff x 1.
Proof.
  apply Z.bits_inj'. intros n Hn.
  rewrite !Z.ldiff_spec, Z.lor_spec.
  destruct (Z.testbit 1 n); [now rewrite !andb_false_r|now rewrite orb_false_r].
Qed.

Lemma raise_INTF0_idem st : raise_INTF0 (raise_INTF0 st) = raise_INTF0 st.
Proof.
  unfold raise_INTF0, set_EIFR. simpl.
  now rewrite <- Z.lor_assoc, (Z.lor_diag 1).
Qed.

Lemma serve_INT0_masked st :
  Z.testbit (EIMSK st) 0 = false -> serve_INT0 st = st.
Proof. intros H. unfold serve_INT0. now rewrite H. Qed.

Lemma foreground_raise m st :
  foreground m (raise_INTF0 st) =
  if loop_waits st then raise_INTF0 st else foreground m st.
Proof.
  unfold foreground, loop_waits. simpl.
  destruct (i st <? _imax st); [reflexivity|].
  f_equal. unfold loop_arm, loop_stop, raise_INTF0. simpl.
  now rewrite ldiff_lor_1.
Qed.

Lemma tick_raise m st :
  tick m (raise_INTF0 st) = (raise_INTF0 (fst (tick m st)), snd (tick m st)).
Proof.
  unfold tick, timer_on. simpl.
  destruct (Z.land (TCCR1B st) 7 =? 1); [|reflexivity].
  destruct (Int.u16 (TCNT1 st + 1) =? OCR1A st); reflexivity.
Qed.

Lemma tick_EIMSK m st : EIMSK (fst (tick m st)) = EIMSK st.
Proof.
  unfold tick. destruct (timer_on st); [|reflexivity]. simpl.
  destruct (Int.u16 (TCNT1 st + 1) =? OCR1A st); reflexivity.
Qed.

(** [loop()] clears the flag before it turns edge detection on, so no
    edge that came earlier is served then. *)
Lemma serve_INT0_after_arm m st : serve_INT0 (loop_arm m st) = loop_arm m st.
Proof.
  unfold serve_INT0.
  change (EIFR (loop_arm m st)) with (Z.ldiff (EIFR st) 1).
  rewrite Z.ldiff_spec. change (Z.testbit 1 0) with true.
  now rewrite andb_false_r, andb_false_r.
Qed.

Lemma step_flag_apart m ev a b :
  flag_apart a b ->
  flag_apart (fst (step m ev a)) (fst (step m ev b))
  /\ snd (step m ev a) = snd (step m ev b).
Proof.
  intros [->|[M ->]]; [split; [now left|reflexivity]|].
  unfold step. destruct ev; simpl.
  - rewrite tick_raise. destruct (tick m b) as [b1 out] eqn:T. simpl.
    split; [|reflexivity].
    rewrite foreground_raise. unfold foreground.
    destruct (loop_waits b1); [|now left].
    right. split; [|reflexivity].
    change b1 with (fst (b1, out)). rewrite <- T, tick_EIMSK. exact M.
  - unfold edge. rewrite raise_INTF0_idem.
    rewrite (serve_INT0_masked (raise_INTF0 b)) by exact M.
    split; [now left|reflexivity].
Qed.

Lemma run_flag_apart m evs a b :
  flag_apart a b ->
  flag_apart (fst (run m evs a)) (fst (run m evs b))
  /\ snd (run m evs a) = snd (run m evs b).
Proof.
  revert a b. induction evs as [|ev evs IH]; intros a b F; simpl.
  - split; [exact F|reflexivity].
  - destruct (step_flag_apart m ev a b F) as [F1 O1].
    destruct (step m ev a) as [a1 oa]. destruct (step m ev b) as [b1 ob].
    simpl in F1, O1. destruct (IH a1 b1 F1) as [F2 O2].
    destruct (run m evs a1) as [a2 oa2]. destruct (run m evs b1) as [b2 ob2].
    simpl in *. split; [exact F2|congruence].
Qed.

(** An edge that finds the program armed is taken: its handler turns
    edge detection off and starts the timer, and counter and cursor
    stay at the values of the arm. *)
Lemma edge_when_ARMED m st :
  ARMED st -> i st < _imax st ->
  RUNNING (fst (step m Edge st))
  /\ TCNT1 (fst (step m Edge st)) = TCNT1 st
  /\ i (fst (step m Edge st)) = i st.
Proof.
  intros [M T] W. unfold step, handle, edge, serve_INT0.
  cbn [EIMSK EIFR raise_INTF0 set_EIFR]. rewrite M.
  replace (Z.testbit (Z.lor (EIFR st) 1) 0) with true
    by (rewrite Z.lor_spec; change (Z.testbit 1 0) with true;
        now rewrite orb_true_r).
  cbn [andb fst]. unfold foreground, loop_waits, ISR_INT0.
  cbn [set_EIMSK set_TCCR1B set_EIFR i _imax].
  apply Z.ltb_lt in W as W'.
  change (i (raise_INTF0 st)) with (i st).
  change (_imax (raise_INTF0 st)) with (_imax st).
  rewrite W'. repeat split. exact W.
Qed.

(** C3: a trigger edge that arrives while a sequence is running has no
    observable effect.  The edge itself produces no output change and
    leaves the cursor, the timer and the compare register as they are;
    whatever events follow, the output changes are those of the run
    without the edge, and the final states differ at most by the INT0
    flag; and edge detection is on again after an event only when the
    foreground found the cursor at the count and armed anew (cursor 0,
    counter 0, timer stopped). *)
Theorem C3_no_retrigger (m : beside) (st : mcu) :
  RUNNING st ->
  (snd (step m Edge st) = []
   /\ i (fst (step m Edge st)) = i st
   /\ TCNT1 (fst (step m Edge st)) = TCNT1 st
   /\ TCCR1B (fst (step m Edge st)) = TCCR1B st
   /\ OCR1A (fst (step m Edge st)) = OCR1A st
   /\ PORTD (fst (step m Edge st)) = PORTD st
   /\ EIMSK (fst (step m Edge st)) = EIMSK st)
  /\ (forall evs : list event,
        snd (run m evs (fst (step m Edge st))) = snd (run m evs st)
        /\ raise_INTF0 (fst (run m evs (fst (step m Edge st))))
           = raise_INTF0 (fst (run m evs st)))
  /\ (forall ev : event,
        Z.testbit (EIMSK (fst (step m ev st))) 0 = true ->
        _imax (fst (handle m ev st)) <= i (fst (handle m ev st))
        /\ i (fst (step m ev st)) = 0
        /\ TCNT1 (fst (step m ev st)) = 0
        /\ timer_on (fst (step m ev st)) = false).
Proof.
  intros (M & T & W).
  assert (E : step m Edge st = (raise_INTF0 st, [])).
  { unfold step. simpl. unfold edge.
    rewrite (serve_INT0_masked (raise_INTF0 st)) by exact M.
    unfold foreground, loop_waits. simpl.
    apply Z.ltb_lt in W. now rewrite W. }
  rewrite E. simpl. split; [repeat split|split].
  - intros evs.
    destruct (run_flag_apart m evs (raise_INTF0 st) st) as [F O].
    { right. split; [exact M|reflexivity]. }
    split; [exact O|].
    destruct F as [->|[_ ->]]; [reflexivity|apply raise_INTF0_idem].
  - intros ev A.
    assert (M1 : Z.testbit (EIMSK (fst (handle m ev st))) 0 = false).
    { destruct ev; simpl.
      - now rewrite tick_EIMSK.
      - unfold edge. now rewrite (serve_INT0_masked (raise_INTF0 st)) by exact M. }
    unfold step in *. destruct (handle m ev st) as [st1 out]. simpl in *.
    unfold foreground in *. unfold loop_waits in *.
    destruct (i st1 <? _imax st1) eqn:L; [congruence|].
    apply Z.ltb_ge in L. split; [exact L|].
    rewrite serve_INT0_after_arm. repeat split.
Qed.

(** The theorem at the state in which the trigger of the example
    schedule was just taken. *)
Lemma C3_no_retrigger_witness :
  let st := fst (step zeros Edge (loop_arm zeros example)) in
  RUNNING st
  /\ (snd (step zeros Edge st) = []
      /\ i (fst (step zeros Edge st)) = i st
      /\ TCNT1 (fst (step zeros Edge st)) = TCNT1 st
      /\ TCCR1B (fst (step zeros Edge st)) = TCCR1B st
      /\ OCR1A (fst (step zeros Edge st)) = OCR1A st
      /\ PORTD (fst (step zeros Edge st)) = PORTD st
      /\ EIMSK (fst (step zeros Edge st)) = EIMSK st)
  /\ (forall evs : list event,
        snd (run zeros evs (fst (step zeros Edge st))) = snd (run zeros evs st)
        /\ raise_INTF0 (fst (run zeros evs (fst (step zeros Edge st))))
           = raise_INTF0 (fst (run zeros evs st)))
  /\ (forall ev : event,
        Z.testbit (EIMSK (fst (step zeros ev st))) 0 = true ->
        _imax (fst (handle zeros ev st)) <= i (fst (handle zeros ev st))
        /\ i (fst (step zeros ev st)) = 0
        /\ TCNT1 (fst (step zeros ev st)) = 0
        /\ timer_on (fst (step zeros ev st)) = false).
Proof.
  intros st.
  assert (R : RUNNING st) by (repeat split).
  split; [exact R|]. exact (C3_no_retrigger zeros st R).
Defined.

(** ** Delay list *)

Section Loops.

Variable outside : Z -> Z.
Variable at_ : list Z -> Z -> Z.
Hypothesis at_load : forall a k, at_ a k = load outside a k.

(** [make_space] moves the slots [k-n+1 .. k] one place up. *)
Lemma make_space_Ok name n k a a' :
  Z.of_nat (length a) = capacity ->
  make_space name at_ n k a = Ok a' ->
  Z.of_nat (length a') = capacity
  /\ (n <> 0%nat -> 0 <= k - Z.of_nat n + 1 /\ k < capacity)
  /\ forall p, load outside a' p =
               if (k - Z.of_nat n <? p) && (p <=? k)
               then load outside a (p - 1) else load outside a p.
Proof.
  revert k a. induction n as [|n IH]; intros k a L H.
  - simpl in H. inversion H; subst a'. split; [exact L|]. split; [easy|].
    intros p. destruct (Z.ltb_spec (k - Z.of_nat 0) p), (Z.leb_spec p k);
      simpl; try reflexivity; lia.
  - simpl in H. destruct (store name a k (at_ a (k - 1))) as [a1|f] eqn:S;
      simpl in H; [|discriminate].
    apply store_Ok in S as [K ->].
    apply IH in H as (L' & B & P); [|now rewrite length_insert].
    split; [exact L'|]. split.
    + intros _. destruct n; [lia|]. specialize (B ltac:(easy)). lia.
    + intros p. rewrite P, !load_insert, at_load by assumption.
      destruct (Z.ltb_spec (k - 1 - Z.of_nat n) p), (Z.leb_spec p (k - 1)),
        (Z.ltb_spec (k - Z.of_nat (S n)) p), (Z.leb_spec p k),
        (Z.eqb_spec (p - 1) k), (Z.eqb_spec p k); simpl; try lia;
        try reflexivity; subst; reflexivity.
Qed.

Lemma make_space_inside name n k a :
  Z.of_nat (length a) = capacity ->
  0 <= k - Z.of_nat n + 1 -> k < capacity ->
  exists a', make_space name at_ n k a = Ok a'.
Proof.
  revert k a. induction n as [|n IH]; intros k a L Lo Hi; simpl.
  - eauto.
  - rewrite store_inside by lia. simpl.
    apply IH; [now rewrite length_insert|lia|lia].
Qed.

End Loops.

Lemma scan_Ok m D t fuel j j' :
  scan m D t fuel j = Ok j' ->
  j <= j' <= j + Z.of_nat fuel
  /\ t <= Delays_at m D j'
  /\ forall p, j <= p < j' -> Delays_at m D p < t.
Proof.
  revert j. induction fuel as [|fuel IH]; intros j H; simpl in H.
  - destruct (Z.gtb_spec t (Delays_at m D j)); [discriminate|].
    inversion H; subst j'. repeat split; lia.
  - destruct (Z.gtb_spec t (Delays_at m D j)).
    + apply IH in H as (B & T & P). repeat split; try lia.
      intros p Hp. destruct (Z.eq_dec p j) as [->|N]; [lia|]. apply P. lia.
    + inversion H; subst j'. repeat split; lia.
Qed.

Lemma scan_finds m D t fuel j p :
  j <= p <= j + Z.of_nat fuel -> t <= Delays_at m D p ->
  exists j', scan m D t fuel j = Ok j'.
Proof.
  revert j. induction fuel as [|fuel IH]; intros j B T; simpl.
  - assert (p = j) as -> by lia.
    destruct (Z.gtb_spec t (Delays_at m D j)); [lia|eauto].
  - destruct (Z.gtb_spec t (Delays_at m D j)); [|eauto].
    apply IH; [|exact T]. destruct (Z.eq_dec p j) as [->|N]; lia.
Qed.


(** *** The list predicates, pointwise *)





Lemma valid_list_spec st :
  valid_list st = true <->
  Z.of_nat (length (Delays st)) = capacity
  /\ Z.of_nat (length (DOut st)) = capacity
  /\ (forall p, 0 <= p < capacity -> 0 <= at_index (Delays st) p < 65536)
  /\ 0 <= _imax st <= capacity.
Proof.
  unfold valid_list. rewrite !andb_true_iff, !Z.eqb_eq, !Z.leb_le, forallb_forall.
  split.
  - intros ((((LD & LO) & R) & Lo) & Hi). repeat split; try assumption.
    all: specialize (R (at_index (Delays st) p)).
    all: rewrite andb_true_iff, Z.leb_le, Z.ltb_lt in R.
    all: apply R, list_elem_of_In, list_elem_of_lookup_total_2; lia.
  - intros (LD & LO & R & Lo & Hi). repeat split; try assumption.
    intros x [n [Hn <-]]%list_elem_of_In%list_elem_of_lookup_total.
    rewrite andb_true_iff, Z.leb_le, Z.ltb_lt.
    specialize (R (Z.of_nat n)). unfold at_index in R.
    rewrite Nat2Z.id in R. apply R. lia.
Qed.

Lemma Delays_at_inside m a p :
  0 <= p < capacity -> Delays_at m a p = at_index a p.
Proof. intros. unfold Delays_at. now rewrite load_inside. Qed.

Lemma DOut_at_inside m a p :
  0 <= p < capacity -> DOut_at m a p = at_index a p.
Proof. intros. unfold DOut_at. now rewrite load_inside. Qed.

(** A load of [Delays] is an [unsigned int] wherever it lands. *)
Lemma Delays_at_range m a p :
  (forall q, 0 <= q < capacity -> 0 <= at_index a q < 65536) ->
  0 <= Delays_at m a p < 65536.
Proof.
  intros R. destruct (in_array p) eqn:E.
  - apply in_array_true in E. rewrite Delays_at_inside by exact E. now apply R.
  - apply in_array_false in E. unfold Delays_at. rewrite load_outside by exact E.
    apply IntFacts.u16_range.
Qed.

(** *** What a completed [SetDelay] did *)

Lemma bind_Ok {A B : Type} (c : result A) (k : A -> result B) (b : B) :
  bind c k = Ok b -> exists a, c = Ok a /\ k a = Ok b.
Proof. destruct c as [a|f]; simpl; [eauto|discriminate]. Qed.

Lemma SetDelay_Ok m micro arg2 st st' :
  valid_list st = true ->
  SetDelay m (Some micro) arg2 st = Ok st' ->
  exists t j d,
    MicrosToTicks micro = Some t
    /\ 0 <= t < 65536
    /\ 0 <= j <= _imax st /\ _imax st < capacity
    /\ (forall p, 0 <= p < j -> at_index (Delays st) p < t)
    /\ (j < _imax st -> t <= at_index (Delays st) j)
    /\ (arg2 = None -> d = Z.lor (Int.s16 (255 - DOut_at m (DOut st) (j - 1))) 4)
    /\ _imax st' = _imax st + 1
    /\ Z.of_nat (length (Delays st')) = capacity
    /\ Z.of_nat (length (DOut st')) = capacity
    /\ (forall p, Delays_at m (Delays st') p =
                  if p =? j then t
                  else if (j <? p) && (p <=? _imax st)
                       then Delays_at m (Delays st) (p - 1)
                       else Delays_at m (Delays st) p)
    /\ (forall p, DOut_at m (DOut st') p =
                  if p =? j then d
                  else if (j <? p) && (p <=? _imax st)
                       then DOut_at m (DOut st) (p - 1)
                       else DOut_at m (DOut st) p).
Proof.
  intros (LD & LO & R & Lo & Hi)%valid_list_spec H.
  unfold SetDelay in H.
  apply bind_Ok in H as (st1 & H & L). inversion L; subst st'; clear L.
  apply bind_Ok in H as (t & Mt & H).
  assert (Mt' : MicrosToTicks micro = Some t)
    by (destruct (MicrosToTicks micro); inversion Mt; reflexivity).
  clear Mt. rename Mt' into Mt.
  apply bind_Ok in H as (j0 & Sc & H).
  apply scan_Ok in Sc as (J0 & T & Below).
  set (j := if j0 >? _imax st then _imax st else j0) in *.
  assert (Jr : 0 <= j <= _imax st /\ j <= j0 /\ (j < _imax st -> j = j0))
    by (unfold j; destruct (Z.gtb_spec j0 (_imax st)); lia).
  cbv zeta in H.
  apply bind_Ok in H as (D1 & MD & H).
  eapply make_space_Ok in MD as (LD1 & BD & PD);
    [|intros; reflexivity|exact LD].
  apply bind_Ok in H as (D2 & SD & H).
  apply store_Ok in SD as [Jin ->].
  apply bind_Ok in H as (O1 & MO & H).
  eapply make_space_Ok in MO as (LO1 & _ & PO);
    [|intros; reflexivity|exact LO].
  match type of H with context [store "DOut" O1 j ?v] => set (d := v) in * end.
  apply bind_Ok in H as (O2 & SO & H).
  apply store_Ok in SO as [_ ->].
  inversion H; subst st1; clear H.
  cbn [ListDelays print set_imax set_DOut set_Delays Delays DOut _imax].
  specialize (BD ltac:(lia)).
  assert (Tr : 0 <= t < 65536).
  { split.
    - unfold MicrosToTicks in Mt. destruct (F32.to_ulong _); [|discriminate].
      inversion Mt. apply Z.mod_pos_bound. lia.
    - pose proof (Delays_at_range m (Delays st) j0 R). lia. }
  exists t, j, d. rewrite IntFacts.u16_id by exact Tr.
  split; [exact Mt|]. split; [exact Tr|]. split; [lia|]. split; [lia|].
  split; [|split; [|split; [|split; [|split; [|split; [|split]]]]]].
  - intros p Hp. rewrite <- (Delays_at_inside m) by lia. apply Below. lia.
  - intros Hj. destruct Jr as (_ & _ & E). rewrite (E Hj).
    rewrite <- (Delays_at_inside m); [exact T|]. specialize (E Hj). lia.
  - intros ->. reflexivity.
  - rewrite IntFacts.s16_id; unfold capacity in *; lia.
  - now rewrite length_insert.
  - now rewrite length_insert.
  - intros p. unfold Delays_at at 1. rewrite load_insert by assumption.
    destruct (Z.eqb_spec p j); [reflexivity|].
    rewrite PD. replace (_imax st - Z.of_nat (Z.to_nat (_imax st - j + 1))) with (j - 1) by lia.
    destruct (Z.ltb_spec (j - 1) p), (Z.ltb_spec j p); try lia; reflexivity.
  - intros p. unfold DOut_at at 1. rewrite load_insert by assumption.
    destruct (Z.eqb_spec p j); [reflexivity|].
    rewrite PO. replace (_imax st - Z.of_nat (Z.to_nat (_imax st - j + 1))) with (j - 1) by lia.
    destruct (Z.ltb_spec (j - 1) p), (Z.ltb_spec j p); try lia; reflexivity.
Qed.


(** *** What [ClearDelay] does *)



(** With no argument the count becomes 0, whatever the list held. *)
Lemma ClearDelay_all m st :
  exists st', ClearDelay m None st = Ok st' /\ _imax st' = 0
    /\ Delays st' = memset Int.u16 0 9 (Delays st)
    /\ DOut st' = memset Int.s16 0 9 (DOut st).
Proof. eexists. split; [reflexivity|]. repeat split. Qed.









(** A valid list with a free slot takes the insert when some word at
    or after the start of [Delays] is at least the new tick value:
    the command then completes. *)
Lemma SetDelay_completes m micro t arg2 st p :
  valid_list st = true -> _imax st < capacity ->
  MicrosToTicks micro = Some t ->
  0 <= p <= 32767 -> t <= Delays_at m (Delays st) p ->
  exists st', SetDelay m (Some micro) arg2 st = Ok st'.
Proof.
  intros (LD & LO & R & Lo & Hi)%valid_list_spec Cap Mt P T.
  unfold SetDelay. rewrite Mt. cbn [bind].
  destruct (scan_finds m (Delays st) t (Z.to_nat 32767) 0 p ltac:(lia) T) as [j0 Sc].
  rewrite Sc. cbn [bind]. apply scan_Ok in Sc as (J0 & _ & _).
  set (j := if j0 >? _imax st then _imax st else j0).
  assert (Jr : 0 <= j <= _imax st)
    by (unfold j; destruct (Z.gtb_spec j0 (_imax st)); lia).
  destruct (make_space_inside (Delays_at m) "Delays" (Z.to_nat (_imax st - j + 1))
              (_imax st) (Delays st) LD ltac:(lia) Cap) as [D1 ED].
  rewrite ED. cbn [bind].
  rewrite store_inside by lia. cbn [bind].
  destruct (make_space_inside (DOut_at m) "DOut" (Z.to_nat (_imax st - j + 1))
              (_imax st) (DOut st) LO ltac:(lia) Cap) as [O1 EO].
  rewrite EO. cbn [bind].
  rewrite store_inside by lia. cbn [bind]. eauto.
Qed.

(** A full list never takes an insert: whatever the arguments, the
    command does not complete. *)
Lemma SetDelay_full m micro arg2 st st' :
  valid_list st = true -> _imax st = capacity ->
  SetDelay m (Some micro) arg2 st <> Ok st'.
Proof.
  intros V F H.
  destruct (SetDelay_Ok _ _ _ _ _ V H) as (_ & _ & _ & _ & _ & _ & Cap & _).
  lia.
Qed.

(** C6, the failing input: after six more inserts the example schedule
    fills all ten slots.  A further insert, here at 13 us, reports
    nothing: its first move to make space stores to index 10, outside
    the array. *)
Theorem C6_insert_into_full_list (m : beside) :
  exists full,
    exec_all fill example = Ok full
    /\ Delays full = [13; 22; 38; 54; 70; 75; 102; 134; 149; 228]
    /\ _imax full = capacity
    /\ SetDelay m (Some (F32.of_Z 13)) None full
       = Undefined (StoreOutside "Delays" 10).
Proof.
  eexists. split; [vm_compute; reflexivity|].
  split; [reflexivity|]. split; [reflexivity|]. vm_compute. reflexivity.
Qed.

(** C8, the failing input: on the full list a removal at the valid
    index 0 runs its loop up to index 10 and stores outside the
    array. *)
Theorem C8_remove_from_full_list (m : beside) :
  exists full,
    exec_all fill example = Ok full
    /\ _imax full = capacity
    /\ valid_list full = true
    /\ ClearDelay m (Some "A"%char) full = Undefined (StoreOutside "Delays" 10).
Proof.
  eexists. split; [vm_compute; reflexivity|].
  split; [reflexivity|]. split; [reflexivity|]. vm_compute. reflexivity.
Qed.

(** *** The default pattern of an insert *)






(** C7, the failing input: 4 us are 6 ticks, before the first delay of
    the example schedule, so the insert lands at index 0.  Its pattern
    is computed from [DOut[-1]], the word that memory holds before the
    array; where that word is 0 the new entry has all five controlled
    lines high. *)
Theorem C7_head_insert_default_pattern :
  (forall m : beside, exists st',
      SetDelay m (Some (F32.of_Z 4)) None example = Ok st'
      /\ at_index (Delays st') 0 = 6
      /\ at_index (DOut st') 0
         = Z.lor (Int.s16 (255 - Int.s16 (beside_DOut m (-1)))) 4)
  /\ exists st',
       SetDelay zeros (Some (F32.of_Z 4)) None example = Ok st'
       /\ firstn 5 (Delays st') = [6; 13; 75; 149; 228]
       /\ firstn 5 (DOut st') = [255; 248; 0; 248; 0]
       /\ channel_bits (at_index (DOut st') 0) = 248.
Proof.
  assert (V : valid_list example = true) by reflexivity.
  assert (Mt : MicrosToTicks (F32.of_Z 4) = Some 6) by (vm_compute; reflexivity).
  split.
  - intros m.
    destruct (SetDelay_completes m (F32.of_Z 4) 6 None example 0 V
                ltac:(reflexivity) Mt ltac:(lia)) as [st' H].
    { rewrite Delays_at_inside by (unfold capacity; lia).
      vm_compute. discriminate. }
    exists st'. split; [exact H|].
    destruct (SetDelay_Ok _ _ _ _ _ V H)
      as (t & j & d & Mt' & _ & Jr & _ & Below & _ & Dd & _ & _ & _ & PD & PO).
    rewrite Mt in Mt'. inversion Mt'; subst t; clear Mt'.
    assert (j = 0) as ->.
    { destruct (Z.eq_dec j 0) as [E|N]; [exact E|].
      specialize (Below 0 ltac:(lia)). vm_compute in Below. discriminate Below. }
    split.
    + rewrite <- (Delays_at_inside m) by (unfold capacity; lia).
      rewrite PD. reflexivity.
    + rewrite <- (DOut_at_inside m) by (unfold capacity; lia).
      rewrite PO, (Dd eq_refl). reflexivity.
  - eexists. split; [vm_compute; reflexivity|]. repeat split.
Qed.

(** ** Tick clock *)

Lemma holds_from_spec p n lo x :
  holds_from p n lo = true -> lo <= x < lo + Z.of_nat n -> p x = true.
Proof.
  revert lo. induction n as [|n IH]; intros lo H B; [lia|].
  simpl in H. destruct (p lo) eqn:E; [|discriminate].
  destruct (Z.eq_dec x lo) as [->|N]; [exact E|].
  apply (IH (lo + 1)); [exact H|lia].
Qed.

Lemma same_eq a b : F32.same a b = true -> a = b.
Proof.
  destruct a as [s|s| |s m e], b as [s'|s'| |s' m' e']; simpl;
    try discriminate; try reflexivity.
  - intros H. apply Bool.eqb_prop in H. now subst.
  - intros H. apply Bool.eqb_prop in H. now subst.
  - rewrite !andb_true_iff. intros [[H1 H2] H3].
    apply Bool.eqb_prop in H1. apply Pos.eqb_eq in H2. apply Z.eqb_eq in H3.
    now subst.
Qed.

(** A whole number of ticks, [n/16] us, comes back as that number
    minus the trigger offset, in 32-bit unsigned arithmetic; the grid
    reaches past the tick range of timer 1. *)
Lemma whole_ticks (n : Z) :
  0 <= n <= 67108 ->
  MicrosToTicks (F32.of_scaled n (-4)) = Some (Int.u32 (n - TimerOffset)).
Proof.
  intros H.
  assert (A : holds_from (fun n => match MicrosToTicks (F32.of_scaled n (-4)) with
                                   | Some t => t =? Int.u32 (n - TimerOffset)
                                   | None => false
                                   end) (Z.to_nat 67109) 0 = true)
    by (vm_compute; reflexivity).
  apply (holds_from_spec _ _ _ n) in A; [|lia]. cbv beta in A.
  destruct (MicrosToTicks (F32.of_scaled n (-4))); [|discriminate].
  apply Z.eqb_eq in A. now subst.
Qed.


(** While [ticks + TimerOffset] is an [int], [TicksToMicros] returns
    that number of sixteenths of a microsecond, exactly. *)
Lemma TicksToMicros_exact (t : Z) :
  0 <= t <= 32709 -> TicksToMicros t = F32.of_scaled (t + TimerOffset) (-4).
Proof.
  intros H.
  assert (A : holds_from (fun t => F32.same (TicksToMicros t)
                                     (F32.of_scaled (t + TimerOffset) (-4)))
                         (Z.to_nat 32710) 0 = true)
    by (vm_compute; reflexivity).
  apply (holds_from_spec _ _ _ t) in A; [|lia]. now apply same_eq.
Qed.

(** Up to 32709 ticks, the largest value whose sum with the trigger
    offset is still an [int], the conversion to microseconds and back
    is the identity. *)
Lemma round_trip_low (t : Z) :
  0 <= t <= 32709 -> MicrosToTicks (TicksToMicros t) = Some t.
Proof.
  intros H. rewrite TicksToMicros_exact by exact H.
  unfold TimerOffset. rewrite whole_ticks by lia. f_equal.
  unfold TimerOffset, Int.u32. rewrite Z.mod_small; lia.
Qed.

(** C4, the failing input: 40000 ticks are in the range of timer 1 and
    of [Delays], but [TicksToMicros] takes an [int]: it sees -25536
    ticks and returns -1592.375 us, a negative time that
    [MicrosToTicks] cannot cast to [unsigned long].  The largest tick
    value comes back as 4294967295, and from 32710 ticks on, up to the
    largest [int], the sum with the trigger offset overflows. *)
Theorem C4_round_trip_breaks_above_int :
  in_tick_range 40000 = true
  /\ TicksToMicros 40000 = F32.of_scaled (-12739) (-3)
  /\ MicrosToTicks (TicksToMicros 40000) = None
  /\ MicrosToTicks (TicksToMicros 65535) = Some 4294967295
  /\ MicrosToTicks (TicksToMicros 32710) = None
  /\ MicrosToTicks (TicksToMicros 32767) = None.
Proof. repeat split; vm_compute; reflexivity. Qed.




(** ** Persistence *)

Lemma EEPROM_read_write_same ee v e :
  EEPROM_readAnything ee (EEPROM_writeAnything ee v e) = Int.u16 v.
Proof.
  unfold EEPROM_readAnything, EEPROM_writeAnything, EEPROM_read, EEPROM_write.
  rewrite Z.eqb_refl. destruct (Z.eqb_spec ee (ee + 1)); [lia|].
  rewrite Z.eqb_refl. pose proof (IntFacts.u16_range v) as R.
  unfold Int.u8. rewrite !Z.mod_mod by lia.
  rewrite (Z.mod_small (Int.u16 v / 256)).
  - rewrite Z.add_comm. symmetry. apply Z.div_mod. lia.
  - split; [apply Z.div_pos; lia|apply Z.div_lt_upper_bound; lia].
Qed.

Lemma EEPROM_read_write_other a ee v e :
  a + 2 <= ee \/ ee + 2 <= a ->
  EEPROM_readAnything a (EEPROM_writeAnything ee v e) = EEPROM_readAnything a e.
Proof.
  intros H.
  unfold EEPROM_readAnything, EEPROM_writeAnything, EEPROM_read, EEPROM_write.
  destruct (Z.eqb_spec a (ee + 1)), (Z.eqb_spec a ee),
    (Z.eqb_spec (a + 1) (ee + 1)), (Z.eqb_spec (a + 1) ee);
    lia || reflexivity.
Qed.

(** What [SaveDelays] leaves in the EEPROM after its count field. *)
Lemma save_entries_EEPROM m n j pos st :
  let st' := save_entries m n j pos st in
  Delays st' = Delays st /\ DOut st' = DOut st /\ _imax st' = _imax st
  /\ (forall q, 0 <= q < Z.of_nat n ->
        EEPROM_readAnything (pos + 4 * q) (EEPROM st')
        = Int.u16 (Delays_at m (Delays st) (j + q))
        /\ EEPROM_readAnything (pos + 4 * q + 2) (EEPROM st')
           = Int.u16 (DOut_at m (DOut st) (j + q)))
  /\ (forall a, a + 2 <= pos ->
        EEPROM_readAnything a (EEPROM st') = EEPROM_readAnything a (EEPROM st)).
Proof.
  revert j pos st. induction n as [|n IH]; intros j pos st; cbv zeta.
  - simpl. repeat split; try reflexivity; lia.
  - cbn [save_entries]. cbv zeta.
    set (st1 := set_EEPROM _ (set_EEPROM _ st)).
    destruct (IH (j + 1) (pos + 2 + 2) st1) as (ED & EO & EI & Q & Low).
    cbv zeta in *. split; [exact ED|]. split; [exact EO|]. split; [exact EI|].
    split.
    + intros q Hq. destruct (Z.eq_dec q 0) as [->|N].
      * rewrite Z.mul_0_r, !Z.add_0_r. rewrite !Low by lia.
        unfold st1. cbn [EEPROM set_EEPROM Delays DOut].
        rewrite EEPROM_read_write_other by lia.
        rewrite !EEPROM_read_write_same. auto.
      * destruct (Q (q - 1) ltac:(lia)) as [Q1 Q2].
        replace (pos + 2 + 2 + 4 * (q - 1)) with (pos + 4 * q) in * by lia.
        replace (j + 1 + (q - 1)) with (j + q) in * by lia.
        rewrite Q1, Q2. auto.
    + intros a Ha. rewrite Low by lia.
      unfold st1. cbn [EEPROM set_EEPROM].
      rewrite !EEPROM_read_write_other by lia. reflexivity.
Qed.

Lemma at_index_insert (a : list Z) k v p :
  Z.of_nat (length a) = capacity -> 0 <= k < capacity -> 0 <= p < capacity ->
  at_index (<[Z.to_nat k := v]> a) p = if p =? k then v else at_index a p.
Proof.
  intros L K P. unfold at_index.
  rewrite <- !(load_inside (fun _ => 0)) by exact P.
  now apply load_insert.
Qed.

(** What [LoadDelays] puts into the arrays after it read the count. *)
Lemma load_entries_Ok n j pos st :
  Z.of_nat (length (Delays st)) = capacity ->
  Z.of_nat (length (DOut st)) = capacity ->
  0 <= j -> j + Z.of_nat n <= capacity ->
  exists st', load_entries n j pos st = Ok st'
    /\ _imax st' = _imax st
    /\ Z.of_nat (length (Delays st')) = capacity
    /\ Z.of_nat (length (DOut st')) = capacity
    /\ (forall q, 0 <= q < Z.of_nat n ->
          at_index (Delays st') (j + q)
          = EEPROM_readAnything (pos + 4 * q) (EEPROM st)
          /\ at_index (DOut st') (j + q)
             = Int.s16 (EEPROM_readAnything (pos + 4 * q + 2) (EEPROM st)))
    /\ (forall p, 0 <= p < j ->
          at_index (Delays st') p = at_index (Delays st) p
          /\ at_index (DOut st') p = at_index (DOut st) p).
Proof.
  revert j pos st. induction n as [|n IH]; intros j pos st LD LO J B.
  - exists st. simpl. repeat split; try assumption; try reflexivity; lia.
  - cbn [load_entries]. rewrite store_inside by lia. cbn [bind]. cbv zeta.
    cbn [DOut set_Delays EEPROM]. rewrite store_inside by lia. cbn [bind].
    set (st1 := set_DOut _ (set_Delays _ st)).
    destruct (IH (j + 1) (pos + 2 + 2) st1) as (st' & E & EI & LD' & LO' & Q & Keep).
    { unfold st1. cbn [Delays set_DOut set_Delays]. now rewrite length_insert. }
    { unfold st1. cbn [DOut set_DOut set_Delays]. now rewrite length_insert. }
    { lia. } { lia. }
    exists st'. split; [exact E|]. split; [exact EI|].
    split; [exact LD'|]. split; [exact LO'|].
    assert (S1 : forall p, 0 <= p < capacity ->
              at_index (Delays st1) p
              = (if p =? j then EEPROM_readAnything pos (EEPROM st)
                 else at_index (Delays st) p)
              /\ at_index (DOut st1) p
                 = (if p =? j then Int.s16 (EEPROM_readAnything (pos + 2) (EEPROM st))
                    else at_index (DOut st) p)).
    { intros p Hp. unfold st1. cbn [Delays DOut set_DOut set_Delays].
      rewrite !at_index_insert by (assumption || lia). auto. }
    split.
    + intros q Hq. destruct (Z.eq_dec q 0) as [->|N].
      * rewrite Z.mul_0_r, !Z.add_0_r.
        destruct (Keep j ltac:(lia)) as [K1 K2]. rewrite K1, K2.
        destruct (S1 j ltac:(lia)) as [A1 A2]. rewrite A1, A2, Z.eqb_refl. auto.
      * destruct (Q (q - 1) ltac:(lia)) as [Q1 Q2].
        replace (pos + 2 + 2 + 4 * (q - 1)) with (pos + 4 * q) in * by lia.
        replace (j + 1 + (q - 1)) with (j + q) in * by lia.
        rewrite Q1, Q2. auto.
    + intros p Hp. destruct (Keep p ltac:(lia)) as [K1 K2]. rewrite K1, K2.
      destruct (S1 p ltac:(lia)) as [A1 A2]. rewrite A1, A2.
      destruct (Z.eqb_spec p j); [lia|]. auto.
Qed.

Lemma well_typed_spec st :
  well_typed st = true ->
  valid_list st = true
  /\ forall p, 0 <= p < capacity -> -32768 <= at_index (DOut st) p < 32768.
Proof.
  unfold well_typed. rewrite andb_true_iff, forallb_forall. intros [V R].
  split; [exact V|]. intros p Hp.
  apply valid_list_spec in V as (_ & LO & _).
  specialize (R (at_index (DOut st) p)).
  rewrite andb_true_iff, Z.leb_le, Z.ltb_lt in R.
  apply R, list_elem_of_In, list_elem_of_lookup_total_2. lia.
Qed.

(** C10: [SaveDelays] followed by [LoadDelays] from the EEPROM it
    wrote restores the list.  Whatever the arrays and the count hold
    when the load starts, it completes, and afterwards the count and
    the tick offset and pattern of every active entry are those of
    the moment of the save. *)
Theorem C10_save_then_load (m : beside) (st ram : mcu) :
  well_typed st = true ->
  Z.of_nat (length (Delays ram)) = capacity ->
  Z.of_nat (length (DOut ram)) = capacity ->
  EEPROM ram = EEPROM (SaveDelays m st) ->
  exists st',
    LoadDelays ram = Ok st'
    /\ _imax st' = _imax st
    /\ forall j, 0 <= j < _imax st ->
         at_index (Delays st') j = at_index (Delays st) j
         /\ at_index (DOut st') j = at_index (DOut st) j.
Proof.
  intros [V RO]%well_typed_spec LD LO E.
  pose proof V as (_ & _ & RD & Lo & Hi)%valid_list_spec.
  unfold SaveDelays in E. cbv zeta in E.
  set (st0 := set_EEPROM _ st) in E.
  destruct (save_entries_EEPROM m (Z.to_nat (_imax st0)) 0
              (_EEPROM_save_position + 2) st0) as (_ & _ & _ & Q & Low).
  cbv zeta in Q, Low. rewrite <- E in Q, Low.
  assert (Cnt : Int.s16 (EEPROM_readAnything _EEPROM_save_position (EEPROM ram))
                = _imax st).
  { rewrite Low by (unfold _EEPROM_save_position; lia).
    unfold st0. cbn [EEPROM set_EEPROM].
    rewrite EEPROM_read_write_same. apply IntFacts.u16_s16.
    unfold capacity in Hi. lia. }
  unfold LoadDelays. cbv zeta. cbn [_imax set_imax]. rewrite Cnt.
  set (ram1 := set_imax _ ram).
  destruct (load_entries_Ok (Z.to_nat (_imax st)) 0 (_EEPROM_save_position + 2) ram1)
    as (st' & L & EI & _ & _ & G & _); try assumption; try lia.
  exists st'. split; [exact L|]. split; [exact EI|].
  intros j Hj. destruct (G j ltac:(lia)) as [G1 G2].
  destruct (Q j ltac:(unfold st0; cbn [_imax set_EEPROM]; lia)) as [Q1 Q2].
  rewrite !Z.add_0_l in *. unfold ram1 in G1, G2. cbn [EEPROM set_imax] in G1, G2.
  unfold st0 in Q1, Q2. cbn [Delays DOut set_EEPROM] in Q1, Q2.
  rewrite G1, G2, Q1, Q2.
  rewrite Delays_at_inside, DOut_at_inside by (unfold capacity in *; lia).
  split.
  - apply IntFacts.u16_id, RD. lia.
  - apply IntFacts.u16_s16, RO. lia.
Qed.

(** The theorem at the example schedule, loaded back after the arrays
    and the count were overwritten. *)
Lemma C10_save_then_load_witness :
  let ram := set_imax 7 (set_Delays (repeat 1 10) (set_DOut (repeat 2 10)
               (SaveDelays zeros example))) in
  well_typed example = true
  /\ exists st',
       LoadDelays ram = Ok st'
       /\ _imax st' = _imax example
       /\ forall j, 0 <= j < _imax example ->
            at_index (Delays st') j = at_index (Delays example) j
            /\ at_index (DOut st') j = at_index (DOut example) j.
Proof.
  intros ram. split; [reflexivity|].
  apply (C10_save_then_load zeros example ram); vm_compute; reflexivity.
Defined.

(** * Further properties *)



(** ** A sequence plays the whole list *)











(** ** An empty list *)




(** ** Persistence, further *)

Lemma EEPROM_read_range a e : 0 <= EEPROM_read a e < 256.
Proof. apply IntFacts.u8_range. Qed.

Lemma EEPROM_word_range a e : 0 <= EEPROM_readAnything a e < 65536.
Proof.
  unfold EEPROM_readAnything.
  pose proof (EEPROM_read_range a e). pose proof (EEPROM_read_range (a + 1) e). lia.
Qed.

(** Equal 16-bit words have equal bytes. *)
Lemma EEPROM_word_bytes a e1 e2 :
  EEPROM_readAnything a e1 = EEPROM_readAnything a e2 ->
  EEPROM_read a e1 = EEPROM_read a e2
  /\ EEPROM_read (a + 1) e1 = EEPROM_read (a + 1) e2.
Proof.
  unfold EEPROM_readAnything. intros H.
  pose proof (EEPROM_read_range a e1). pose proof (EEPROM_read_range (a + 1) e1).
  pose proof (EEPROM_read_range a e2). pose proof (EEPROM_read_range (a + 1) e2).
  lia.
Qed.

Lemma EEPROM_writeAnything_other ee v e a :
  a <> ee -> a <> ee + 1 -> EEPROM_writeAnything ee v e a = e a.
Proof.
  intros H1 H2. unfold EEPROM_writeAnything, EEPROM_write.
  destruct (Z.eqb_spec a (ee + 1)); [lia|]. destruct (Z.eqb_spec a ee); [lia|].
  reflexivity.
Qed.

Lemma save_entries_footprint m n j pos st a :
  a < pos \/ pos + 4 * Z.of_nat n <= a ->
  EEPROM (save_entries m n j pos st) a = EEPROM st a.
Proof.
  revert j pos st. induction n as [|n IH]; intros j pos st H; [reflexivity|].
  cbn [save_entries]. cbv zeta. rewrite IH by lia.
  cbn [EEPROM set_EEPROM].
  rewrite !EEPROM_writeAnything_other by lia. reflexivity.
Qed.

Lemma save_entries_registers m n j pos st :
  let st' := save_entries m n j pos st in
  i st' = i st /\ TCNT1 st' = TCNT1 st /\ OCR1A st' = OCR1A st
  /\ TCCR1B st' = TCCR1B st /\ EIMSK st' = EIMSK st /\ EIFR st' = EIFR st
  /\ PORTD st' = PORTD st /\ Serial st' = Serial st.
Proof.
  revert j pos st. induction n as [|n IH]; intros j pos st; cbv zeta.
  - repeat split.
  - cbn [save_entries]. cbv zeta.
    destruct (IH (j + 1) (pos + 2 + 2)
                (set_EEPROM (EEPROM_writeAnything (pos + 2)
                               (DOut_at m (DOut (set_EEPROM (EEPROM_writeAnything pos
                                  (Delays_at m (Delays st) j) (EEPROM st)) st)) j)
                               (EEPROM (set_EEPROM (EEPROM_writeAnything pos
                                  (Delays_at m (Delays st) j) (EEPROM st)) st)))
                   (set_EEPROM (EEPROM_writeAnything pos
                                  (Delays_at m (Delays st) j) (EEPROM st)) st)))
      as (H1 & H2 & H3 & H4 & H5 & H6 & H7 & H8).
    cbv zeta in *. rewrite H1, H2, H3, H4, H5, H6, H7, H8. repeat split.
Qed.

(** [SaveDelays] changes nothing but the EEPROM cells of the count and
    of the active entries: the list, the cursor, the registers and
    every cell outside [0 .. 2 + 4 * count - 1] stay as they are. *)
Theorem SaveDelays_footprint (m : beside) (st : mcu) :
  let st' := SaveDelays m st in
  Delays st' = Delays st /\ DOut st' = DOut st /\ _imax st' = _imax st
  /\ i st' = i st /\ TCNT1 st' = TCNT1 st /\ OCR1A st' = OCR1A st
  /\ TCCR1B st' = TCCR1B st /\ EIMSK st' = EIMSK st /\ EIFR st' = EIFR st
  /\ PORTD st' = PORTD st
  /\ forall a, a < 0 \/ 2 + 4 * Z.max 0 (_imax st) <= a ->
               EEPROM st' a = EEPROM st a.
Proof.
  cbv zeta. unfold SaveDelays. cbv zeta.
  set (st0 := set_EEPROM _ st).
  destruct (save_entries_EEPROM m (Z.to_nat (_imax st0)) 0
              (_EEPROM_save_position + 2) st0) as (ED & EO & EI & _).
  destruct (save_entries_registers m (Z.to_nat (_imax st0)) 0
              (_EEPROM_save_position + 2) st0)
    as (H1 & H2 & H3 & H4 & H5 & H6 & H7 & _).
  cbv zeta in *. rewrite ED, EO, EI, H1, H2, H3, H4, H5, H6, H7.
  repeat split. intros a Ha.
  rewrite save_entries_footprint
    by (unfold _EEPROM_save_position, st0; cbn [_imax set_EEPROM]; lia).
  unfold st0. cbn [EEPROM set_EEPROM].
  apply EEPROM_writeAnything_other; unfold _EEPROM_save_position; lia.
Qed.

(** On an erased EEPROM (every cell 255) [LoadDelays] reads the count
    -1 and loads no entry: the arrays keep what they held, and the
    list counts as empty. *)
Theorem LoadDelays_erased (st : mcu) :
  EEPROM_read 0 (EEPROM st) = 255 -> EEPROM_read 1 (EEPROM st) = 255 ->
  LoadDelays st = Ok (set_imax (-1) st).
Proof.
  intros H0 H1. unfold LoadDelays. cbv zeta.
  unfold EEPROM_readAnything, _EEPROM_save_position.
  change (0 + 1) with 1. rewrite H0, H1. reflexivity.
Qed.

Lemma LoadDelays_erased_witness :
  EEPROM_read 0 (EEPROM example) = 255
  /\ EEPROM_read 1 (EEPROM example) = 255
  /\ LoadDelays example = Ok (set_imax (-1) example).
Proof.
  split; [reflexivity|]. split; [reflexivity|].
  exact (LoadDelays_erased example eq_refl eq_refl).
Defined.

Lemma load_entries_overrun n j pos st :
  Z.of_nat (length (Delays st)) = capacity ->
  Z.of_nat (length (DOut st)) = capacity ->
  0 <= j <= capacity -> capacity < j + Z.of_nat n ->
  load_entries n j pos st = Undefined (StoreOutside "Delays" capacity).
Proof.
  revert j pos st. induction n as [|n IH]; intros j pos st LD LO J B; [lia|].
  cbn [load_entries]. destruct (Z.eq_dec j capacity) as [->|N].
  - reflexivity.
  - rewrite store_inside by lia. cbn [bind]. cbv zeta.
    cbn [DOut set_Delays EEPROM]. rewrite store_inside by lia. cbn [bind].
    apply IH; cbn [Delays DOut set_DOut set_Delays];
      rewrite ?length_insert; try assumption; lia.
Qed.

(** [LoadDelays] takes the stored count as it is.  When the EEPROM
    holds a count above the ten slots, the load fills the arrays and
    goes on: its next store is to index 10, outside the array. *)
Theorem LoadDelays_count_unchecked (st : mcu) :
  Z.of_nat (length (Delays st)) = capacity ->
  Z.of_nat (length (DOut st)) = capacity ->
  capacity < Int.s16 (EEPROM_readAnything _EEPROM_save_position (EEPROM st)) ->
  LoadDelays st = Undefined (StoreOutside "Delays" 10).
Proof.
  intros LD LO H. unfold LoadDelays. cbv zeta. cbn [_imax set_imax].
  apply load_entries_overrun; cbn [Delays DOut set_imax]; try assumption;
    unfold capacity in *; lia.
Qed.

Lemma LoadDelays_count_unchecked_witness :
  let st := set_EEPROM (fun a => if a =? 0 then 11 else 0) example in
  Z.of_nat (length (Delays st)) = capacity
  /\ Z.of_nat (length (DOut st)) = capacity
  /\ capacity < Int.s16 (EEPROM_readAnything _EEPROM_save_position (EEPROM st))
  /\ LoadDelays st = Undefined (StoreOutside "Delays" 10).
Proof.
  intros st.
  assert (H : capacity
              < Int.s16 (EEPROM_readAnything _EEPROM_save_position (EEPROM st)))
    by (vm_compute; reflexivity).
  split; [reflexivity|]. split; [reflexivity|]. split; [exact H|].
  exact (LoadDelays_count_unchecked st eq_refl eq_refl H).
Defined.

(** What [LoadDelays] leaves alone: the slots behind the entries it
    loads, the EEPROM, the cursor and the registers. *)
Lemma load_entries_rest n j pos st st' :
  Z.of_nat (length (Delays st)) = capacity ->
  Z.of_nat (length (DOut st)) = capacity ->
  0 <= j -> j + Z.of_nat n <= capacity ->
  load_entries n j pos st = Ok st' ->
  EEPROM st' = EEPROM st /\ i st' = i st /\ TCNT1 st' = TCNT1 st
  /\ OCR1A st' = OCR1A st /\ TCCR1B st' = TCCR1B st /\ EIMSK st' = EIMSK st
  /\ EIFR st' = EIFR st /\ PORTD st' = PORTD st /\ Serial st' = Serial st
  /\ forall p, j + Z.of_nat n <= p < capacity ->
       at_index (Delays st') p = at_index (Delays st) p
       /\ at_index (DOut st') p = at_index (DOut st) p.
Proof.
  revert j pos st. induction n as [|n IH]; intros j pos st LD LO J B H.
  - inversion H; subst st'. repeat split.
  - cbn [load_entries] in H. rewrite store_inside in H by lia. cbn [bind] in H.
    cbv zeta in H. cbn [DOut set_Delays EEPROM] in H.
    rewrite store_inside in H by lia. cbn [bind] in H.
    apply IH in H; cbn [Delays DOut set_DOut set_Delays];
      rewrite ?length_insert; try assumption; try lia.
    destruct H as (H1 & H2 & H3 & H4 & H5 & H6 & H7 & H8 & H9 & K).
    cbn [EEPROM i TCNT1 OCR1A TCCR1B EIMSK EIFR PORTD Serial set_DOut set_Delays]
      in H1, H2, H3, H4, H5, H6, H7, H8, H9.
    repeat split; try assumption.
    all: destruct (K p ltac:(lia)) as [K1 K2];
      cbn [Delays DOut set_DOut set_Delays] in K1, K2.
    + rewrite K1, at_index_insert by (assumption || lia).
      destruct (Z.eqb_spec p j); [lia|reflexivity].
    + rewrite K2, at_index_insert by (assumption || lia).
      destruct (Z.eqb_spec p j); [lia|reflexivity].
Qed.

Lemma s16_positive z : 0 <= z < 65536 -> 0 <= Int.s16 z -> Int.s16 z = z.
Proof.
  intros R P. pose proof (IntFacts.s16_range z) as S.
  rewrite <- (IntFacts.s16_u16 z R) at 2. symmetry. apply IntFacts.u16_id. lia.
Qed.

(** Saving what was just loaded writes the EEPROM as it was: after
    [LoadDelays] with a stored count between 0 and the capacity,
    [SaveDelays] leaves every cell with the byte it held. *)
Theorem LoadDelays_then_SaveDelays (m : beside) (st : mcu) :
  Z.of_nat (length (Delays st)) = capacity ->
  Z.of_nat (length (DOut st)) = capacity ->
  0 <= Int.s16 (EEPROM_readAnything _EEPROM_save_position (EEPROM st)) <= capacity ->
  exists st',
    LoadDelays st = Ok st'
    /\ forall a, EEPROM_read a (EEPROM (SaveDelays m st'))
                 = EEPROM_read a (EEPROM st).
Proof.
  intros LD LO C. unfold _EEPROM_save_position in C.
  set (n := Int.s16 (EEPROM_readAnything 0 (EEPROM st))) in *.
  assert (W0 : EEPROM_readAnything 0 (EEPROM st) = n)
    by (symmetry; apply s16_positive; [apply EEPROM_word_range|lia]).
  unfold LoadDelays, _EEPROM_save_position. cbv zeta. cbn [_imax set_imax]. fold n.
  set (ram := set_imax n st).
  destruct (load_entries_Ok (Z.to_nat n) 0 (0 + 2) ram) as (st' & L & EI & _ & _ & G & _);
    try assumption; try lia.
  destruct (load_entries_rest (Z.to_nat n) 0 (0 + 2) ram st') as (EE & _);
    try assumption; try lia.
  exists st'. split; [exact L|].
  cbn [EEPROM _imax set_imax ram] in EE, EI, G. unfold ram in EE, EI, G.
  cbn [EEPROM _imax set_imax] in EE, EI, G.
  unfold SaveDelays, _EEPROM_save_position. cbv zeta.
  set (st0 := set_EEPROM _ st').
  destruct (save_entries_EEPROM m (Z.to_nat (_imax st0)) 0 (0 + 2) st0)
    as (_ & _ & _ & Q & Low).
  cbv zeta in Q, Low.
  assert (I0 : _imax st0 = n) by (unfold st0; cbn [_imax set_EEPROM]; exact EI).
  rewrite I0 in *.
  intros a.
  destruct (Z_lt_ge_dec a 0) as [Neg|Pos];
    [|destruct (Z_lt_ge_dec a 2) as [Cnt|Ent];
      [|destruct (Z_lt_ge_dec a (2 + 4 * n)) as [In|Out]]].
  - unfold EEPROM_read. f_equal.
    rewrite save_entries_footprint by lia.
    unfold st0. cbn [EEPROM set_EEPROM].
    rewrite EEPROM_writeAnything_other by lia. now rewrite EE.
  - assert (E0 : EEPROM_readAnything 0 (EEPROM (save_entries m (Z.to_nat n) 0 (0 + 2) st0))
                 = EEPROM_readAnything 0 (EEPROM st)).
    { rewrite Low by lia. unfold st0. cbn [EEPROM set_EEPROM].
      rewrite EEPROM_read_write_same, EI, W0. apply IntFacts.u16_id.
      unfold capacity in C. lia. }
    apply EEPROM_word_bytes in E0 as [B0 B1].
    destruct (Z.eq_dec a 0) as [->|N]; [exact B0|].
    assert (a = 0 + 1) as -> by lia. exact B1.
  - set (q := (a - 2) / 4).
    assert (Hq : 0 <= q < Z.of_nat (Z.to_nat n))
      by (unfold q; split; [apply Z.div_pos; lia|apply Z.div_lt_upper_bound; lia]).
    assert (Ha : a = 2 + 4 * q + (a - 2) mod 4)
      by (unfold q; pose proof (Z.div_mod (a - 2) 4 ltac:(lia)); lia).
    pose proof (Z.mod_pos_bound (a - 2) 4 ltac:(lia)) as Hr.
    destruct (Q q Hq) as [Q1 Q2]. destruct (G q Hq) as [G1 G2].
    rewrite !Z.add_0_l in *.
    unfold st0 in Q1, Q2. cbn [Delays DOut set_EEPROM] in Q1, Q2.
    rewrite Delays_at_inside in Q1 by (unfold capacity in *; lia).
    rewrite DOut_at_inside in Q2 by (unfold capacity in *; lia).
    rewrite G1 in Q1. rewrite G2 in Q2.
    rewrite IntFacts.u16_id in Q1 by apply EEPROM_word_range.
    rewrite IntFacts.s16_u16 in Q2 by apply EEPROM_word_range.
    apply EEPROM_word_bytes in Q1 as [D0 D1].
    apply EEPROM_word_bytes in Q2 as [O0 O1].
    destruct (Z.eq_dec ((a - 2) mod 4) 0) as [R0|N0];
      [|destruct (Z.eq_dec ((a - 2) mod 4) 1) as [R1|N1];
        [|destruct (Z.eq_dec ((a - 2) mod 4) 2) as [R2|N2]]].
    + replace a with (2 + 4 * q) by lia. exact D0.
    + replace a with (2 + 4 * q + 1) by lia. exact D1.
    + replace a with (2 + 4 * q + 2) by lia. exact O0.
    + replace a with (2 + 4 * q + 2 + 1) by lia. exact O1.
  - unfold EEPROM_read. f_equal.
    rewrite save_entries_footprint by lia.
    unfold st0. cbn [EEPROM set_EEPROM].
    rewrite EEPROM_writeAnything_other by lia. now rewrite EE.
Qed.

Lemma LoadDelays_then_SaveDelays_witness :
  let st := set_EEPROM (fun a => if a =? 0 then 2 else if a =? 1 then 0 else 9)
                       example in
  Z.of_nat (length (Delays st)) = capacity
  /\ Z.of_nat (length (DOut st)) = capacity
  /\ 0 <= Int.s16 (EEPROM_readAnything _EEPROM_save_position (EEPROM st)) <= capacity
  /\ exists st',
       LoadDelays st = Ok st'
       /\ forall a, EEPROM_read a (EEPROM (SaveDelays zeros st'))
                    = EEPROM_read a (EEPROM st).
Proof.
  intros st.
  assert (C : 0 <= Int.s16 (EEPROM_readAnything _EEPROM_save_position (EEPROM st))
              <= capacity) by (vm_compute; split; discriminate).
  split; [reflexivity|]. split; [reflexivity|]. split; [exact C|].
  exact (LoadDelays_then_SaveDelays zeros st eq_refl eq_refl C).
Defined.

(** ** Start-up *)








(** * The delay list commands, entry by entry *)












Lemma scan_runs_off m D t fuel j :
  (forall p, Delays_at m D p < t) -> scan m D t fuel j = Undefined ScanRunsOff.
Proof.
  intros B. revert j. induction fuel as [|fuel IH]; intros j; cbn [scan].
  - replace (t >? Delays_at m D j) with true; [reflexivity|].
    symmetry. apply Z.gtb_lt, B.
  - replace (t >? Delays_at m D j) with true; [apply IH|].
    symmetry. apply Z.gtb_lt, B.
Qed.

(** A delay whose tick value no [unsigned int] holds is never stored.
    [MicrosToTicks] returns an [unsigned long]; from 65536 on, which is
    where delays above 4099 us land and also, wrapped around, delays
    below 3.6 us, no word of memory stops the scan for the insert
    position, and its index runs off the range of [int]. *)
Theorem SetDelay_tick_beyond_timer (m : beside) (micro : F32.float) (t : Z)
  (arg2 : option dout_arg) (st : mcu) :
  valid_list st = true ->
  MicrosToTicks micro = Some t -> 65536 <= t ->
  SetDelay m (Some micro) arg2 st = Undefined ScanRunsOff.
Proof.
  intros (_ & _ & R & _)%valid_list_spec Mt T.
  unfold SetDelay. rewrite Mt. cbn [bind].
  rewrite scan_runs_off; [reflexivity|].
  intros p. pose proof (Delays_at_range m (Delays st) p R). lia.
Qed.

Lemma SetDelay_tick_beyond_timer_witness :
  valid_list example = true
  /\ MicrosToTicks (F32.of_Z 1) = Some 4294967254
  /\ 65536 <= 4294967254
  /\ SetDelay zeros (Some (F32.of_Z 1)) None example = Undefined ScanRunsOff.
Proof.
  assert (V : valid_list example = true) by reflexivity.
  assert (M : MicrosToTicks (F32.of_Z 1) = Some 4294967254) by (vm_compute; reflexivity).
  assert (T : 65536 <= 4294967254) by lia.
  split; [exact V|]. split; [exact M|]. split; [exact T|].
  exact (SetDelay_tick_beyond_timer zeros (F32.of_Z 1) 4294967254 None example V M T).
Defined.

(** [SetDelay] does not check for room.  On a valid list that is full
    the command finds its position and then, making space, stores one
    element behind the end of [Delays]. *)
Theorem SetDelay_full_list_overruns (m : beside) (micro : F32.float) (t : Z)
  (arg2 : option dout_arg) (st : mcu) (p : Z) :
  valid_list st = true -> _imax st = capacity ->
  MicrosToTicks micro = Some t ->
  0 <= p <= 32767 -> t <= Delays_at m (Delays st) p ->
  SetDelay m (Some micro) arg2 st = Undefined (StoreOutside "Delays" capacity).
Proof.
  intros V F Mt P T. pose proof V as (_ & _ & _ & Lo & Hi)%valid_list_spec.
  unfold SetDelay. rewrite Mt. cbn [bind].
  destruct (scan_finds m (Delays st) t (Z.to_nat 32767) 0 p ltac:(lia) T) as [j0 Sc].
  rewrite Sc. cbn [bind]. apply scan_Ok in Sc as (J0 & _ & _).
  set (j := if j0 >? _imax st then _imax st else j0).
  assert (Jr : 0 <= j <= _imax st)
    by (unfold j; destruct (Z.gtb_spec j0 (_imax st)); lia).
  destruct (Z.to_nat (_imax st - j + 1)) as [|n] eqn:En; [lia|].
  cbn [make_space]. rewrite F. reflexivity.
Qed.

Lemma SetDelay_full_list_overruns_witness :
  let full := set_imax 10 (set_Delays [1; 2; 3; 4; 5; 6; 7; 8; 9; 10] example) in
  valid_list full = true /\ _imax full = capacity
  /\ MicrosToTicks (F32.of_Z 4) = Some 6
  /\ 0 <= 5 <= 32767 /\ 6 <= Delays_at zeros (Delays full) 5
  /\ SetDelay zeros (Some (F32.of_Z 4)) None full
     = Undefined (StoreOutside "Delays" capacity).
Proof.
  intros full.
  assert (V : valid_list full = true) by reflexivity.
  assert (F : _imax full = capacity) by reflexivity.
  assert (M : MicrosToTicks (F32.of_Z 4) = Some 6) by (vm_compute; reflexivity).
  assert (P : 0 <= 5 <= 32767) by lia.
  assert (T : 6 <= Delays_at zeros (Delays full) 5) by (vm_compute; discriminate).
  split; [exact V|]. split; [exact F|]. split; [exact M|]. split; [exact P|].
  split; [exact T|].
  exact (SetDelay_full_list_overruns zeros (F32.of_Z 4) 6 None full 5 V F M P T).
Defined.

Lemma clear_shift_overrun m n k D O :
  Z.of_nat (length D) = capacity -> Z.of_nat (length O) = capacity ->
  0 <= k <= capacity -> k + Z.of_nat n = capacity + 1 ->
  clear_shift m n k D O = Undefined (StoreOutside "Delays" capacity).
Proof.
  revert k D O. induction n as [|n IH]; intros k D O LD LO K N.
  - unfold capacity in *. lia.
  - cbn [clear_shift]. destruct (Z.eq_dec k capacity) as [->|Ne].
    + reflexivity.
    + rewrite store_inside by lia. cbn [bind].
      rewrite store_inside by lia. cbn [bind].
      apply IH; rewrite ?length_insert; try assumption; lia.
Qed.

(** [ClearDelay] of one entry runs its loop up to the count itself.
    On a valid list that is full, every letter in range makes the
    command store one element behind the end of [Delays]. *)
Theorem ClearDelay_full_list_overruns (m : beside) (c : ascii) (st : mcu) :
  let a := Int.s16 (char_value c - 65) in
  valid_list st = true -> _imax st = capacity -> 0 <= a < capacity ->
  ClearDelay m (Some c) st = Undefined (StoreOutside "Delays" capacity).
Proof.
  intros a (LD & LO & _)%valid_list_spec F A.
  unfold ClearDelay. fold a.
  replace ((a <? _imax st) && (a >=? 0)) with true
    by (symmetry; apply andb_true_iff; rewrite Z.ltb_lt, Z.geb_leb, Z.leb_le; lia).
  rewrite clear_shift_overrun; [reflexivity|assumption|assumption|lia|].
  rewrite F. lia.
Qed.

Lemma ClearDelay_full_list_overruns_witness :
  let full := set_imax 10 example in
  valid_list full = true /\ _imax full = capacity
  /\ 0 <= Int.s16 (char_value "C" - 65) < capacity
  /\ ClearDelay zeros (Some "C"%char) full = Undefined (StoreOutside "Delays" capacity).
Proof.
  intros full.
  assert (V : valid_list full = true) by reflexivity.
  assert (F : _imax full = capacity) by reflexivity.
  assert (A : 0 <= Int.s16 (char_value "C" - 65) < capacity)
    by (vm_compute; split; [discriminate|reflexivity]).
  split; [exact V|]. split; [exact F|]. split; [exact A|].
  exact (ClearDelay_full_list_overruns zeros "C" full V F A).
Defined.





Lemma land_high_byte x : 0 <= x < 65536 -> Z.land x 65280 = 256 * (x / 256).
Proof.
  intros H.
  assert (D : Z.land (Z.land x 65280) (Z.land x 255) = 0).
  { rewrite Z.land_assoc, <- (Z.land_assoc x 65280 x), (Z.land_comm 65280 x),
      Z.land_assoc, Z.land_diag, <- Z.land_assoc. change (Z.land 65280 255) with 0.
    apply Z.land_0_r. }
  assert (S : Z.land x 65280 + Z.land x 255 = x).
  { rewrite <- Z.add_lor_land, D, Z.add_0_r, <- Z.land_lor_distr_r.
    change (Z.lor 65280 255) with (Z.ones 16).
    rewrite Z.land_ones by lia. apply Z.mod_small. change (2 ^ 16) with 65536. lia. }
  change 255 with (Z.ones 8) in S. rewrite Z.land_ones in S by lia.
  change (2 ^ 8) with 256 in S. pose proof (Z.div_mod x 256 ltac:(lia)). lia.
Qed.

(** [ClearDelay] without a letter empties the list but not the arrays:
    [memset] is given 9 bytes, so the words of slots 0 to 3 become
    zero, slot 4 loses its low byte only, and slots 5 to 9 keep their
    delays and patterns. *)
Theorem ClearDelay_all_clears_nine_bytes (m : beside) (st : mcu) :
  well_typed st = true ->
  exists st',
    ClearDelay m None st = Ok st'
    /\ _imax st' = 0
    /\ (forall p, 0 <= p < 4 ->
          at_index (Delays st') p = 0 /\ at_index (DOut st') p = 0)
    /\ at_index (Delays st') 4 = 256 * (at_index (Delays st) 4 / 256)
    /\ at_index (DOut st') 4 = 256 * (at_index (DOut st) 4 / 256)
    /\ (forall p, 5 <= p < capacity ->
          at_index (Delays st') p = at_index (Delays st) p
          /\ at_index (DOut st') p = at_index (DOut st) p).
Proof.
  intros [V RO]%well_typed_spec.
  pose proof V as (LD & LO & RD & _)%valid_list_spec.
  destruct (ClearDelay_all m st) as (st' & E & I' & D' & O').
  exists st'. split; [exact E|]. split; [exact I'|].
  specialize (RD 4 ltac:(unfold capacity; lia)).
  specialize (RO 4 ltac:(unfold capacity; lia)).
  rewrite D', O'. clear E I' D' O' V.
  assert (LD' : length (Delays st) = 10%nat) by (unfold capacity in LD; lia).
  assert (LO' : length (DOut st) = 10%nat) by (unfold capacity in LO; lia).
  clear LD LO.
  destruct (Delays st) as [|d0 [|d1 [|d2 [|d3 [|d4 [|d5 [|d6 [|d7 [|d8 [|d9 [|]]]]]]]]]]];
    try discriminate LD'.
  destruct (DOut st) as [|o0 [|o1 [|o2 [|o3 [|o4 [|o5 [|o6 [|o7 [|o8 [|o9 [|]]]]]]]]]]];
    try discriminate LO'.
  change (at_index [d0; d1; d2; d3; d4; d5; d6; d7; d8; d9] 4) with d4 in *.
  change (at_index [o0; o1; o2; o3; o4; o5; o6; o7; o8; o9] 4) with o4 in *.
  change (memset Int.u16 0 9 [d0; d1; d2; d3; d4; d5; d6; d7; d8; d9])
    with [Int.u16 0; Int.u16 0; Int.u16 0; Int.u16 0;
          Int.u16 (Z.lor (Z.land (Int.u16 d4) 65280) 0); d5; d6; d7; d8; d9].
  change (memset Int.s16 0 9 [o0; o1; o2; o3; o4; o5; o6; o7; o8; o9])
    with [Int.s16 0; Int.s16 0; Int.s16 0; Int.s16 0;
          Int.s16 (Z.lor (Z.land (Int.u16 o4) 65280) 0); o5; o6; o7; o8; o9].
  split; [|split; [|split; [|]]].
  - intros p Hp.
    assert (C : p = 0 \/ p = 1 \/ p = 2 \/ p = 3) by lia.
    destruct C as [-> | [-> | [-> | ->]]]; split; reflexivity.
  - change (at_index _ 4) with (Int.u16 (Z.lor (Z.land (Int.u16 d4) 65280) 0)).
    rewrite Z.lor_0_r, (IntFacts.u16_id d4) by exact RD.
    rewrite land_high_byte by exact RD.
    apply IntFacts.u16_id. pose proof (Z.div_mod d4 256 ltac:(lia)).
    pose proof (Z.mod_pos_bound d4 256 ltac:(lia)). lia.
  - change (at_index _ 4) with (Int.s16 (Z.lor (Z.land (Int.u16 o4) 65280) 0)).
    rewrite Z.lor_0_r, land_high_byte by apply IntFacts.u16_range.
    unfold Int.s16, Int.u16. Z.to_euclidean_division_equations. lia.
  - intros p Hp. unfold capacity in Hp.
    assert (C : p = 5 \/ p = 6 \/ p = 7 \/ p = 8 \/ p = 9) by lia.
    destruct C as [-> | [-> | [-> | [-> | ->]]]]; split; reflexivity.
Qed.

Lemma ClearDelay_all_clears_nine_bytes_witness :
  let st := set_Delays [13; 75; 149; 228; 300; 400; 500; 600; 700; 800] example in
  well_typed st = true
  /\ exists st',
       ClearDelay zeros None st = Ok st'
       /\ _imax st' = 0
       /\ (forall p, 0 <= p < 4 ->
             at_index (Delays st') p = 0 /\ at_index (DOut st') p = 0)
       /\ at_index (Delays st') 4 = 256 * (at_index (Delays st) 4 / 256)
       /\ at_index (DOut st') 4 = 256 * (at_index (DOut st) 4 / 256)
       /\ (forall p, 5 <= p < capacity ->
             at_index (Delays st') p = at_index (Delays st) p
             /\ at_index (DOut st') p = at_index (DOut st) p).
Proof.
  intros st.
  assert (W : well_typed st = true) by reflexivity.
  split; [exact W|].
  exact (ClearDelay_all_clears_nine_bytes zeros st W).
Defined.



(** * Text output *)

Lemma poke_inside b ptr c :
  0 <= ptr < buf_size -> poke b ptr c = Ok (<[Z.to_nat ptr := c]> b).
Proof.
  intros H. unfold poke.
  replace ((0 <=? ptr) && (ptr <? buf_size)) with true; [reflexivity|].
  symmetry. apply andb_true_iff. rewrite Z.leb_le, Z.ltb_lt. exact H.
Qed.

Lemma poke_outside b ptr c :
  ptr < 0 \/ buf_size <= ptr -> poke b ptr c = Undefined (StoreOutside "buf" ptr).
Proof.
  intros H. unfold poke.
  replace ((0 <=? ptr) && (ptr <? buf_size)) with false; [reflexivity|].
  symmetry. apply andb_false_iff. rewrite Z.leb_gt, Z.ltb_ge. exact H.
Qed.

Lemma fill_up_spec n c p b :
  (p + n <= length b)%nat -> length b = Z.to_nat buf_size ->
  fill_up n c (Z.of_nat p) b
  = Ok (Z.of_nat (p + n), take p b ++ repeat c n ++ drop (p + n) b).
Proof.
  revert p b. induction n as [|n IH]; intros p b N L; cbn [fill_up].
  - rewrite Nat.add_0_r. cbn [repeat app]. now rewrite firstn_skipn.
  - rewrite poke_inside by (unfold buf_size in *; lia). cbn [bind].
    rewrite Nat2Z.id. replace (Z.of_nat p + 1) with (Z.of_nat (S p)) by lia.
    rewrite IH by (rewrite ?length_insert; lia).
    rewrite (take_S_r _ _ c) by (apply list_lookup_insert_eq; lia).
    rewrite take_insert_ge by lia. rewrite drop_insert_lt by lia.
    replace (S p + n)%nat with (p + S n)%nat by lia.
    rewrite <- app_assoc. reflexivity.
Qed.

Lemma copy_up_spec n txt k p b :
  (k + n <= length txt)%nat ->
  (p + n <= length b)%nat -> length b = Z.to_nat buf_size ->
  copy_up n txt (Z.of_nat k) (Z.of_nat p) b
  = Ok (Z.of_nat (p + n), take p b ++ take n (drop k txt) ++ drop (p + n) b).
Proof.
  revert k p b. induction n as [|n IH]; intros k p b K N L; cbn [copy_up].
  - rewrite Nat.add_0_r. cbn [take app]. now rewrite firstn_skipn.
  - rewrite poke_inside by (unfold buf_size in *; lia). cbn [bind].
    rewrite Nat2Z.id. replace (Z.of_nat p + 1) with (Z.of_nat (S p)) by lia.
    replace (Z.of_nat k + 1) with (Z.of_nat (S k)) by lia.
    rewrite IH by (rewrite ?length_insert; lia).
    rewrite (take_S_r _ _ (peek txt (Z.of_nat k)))
      by (apply list_lookup_insert_eq; lia).
    rewrite take_insert_ge by lia. rewrite drop_insert_lt by lia.
    replace (S p + n)%nat with (p + S n)%nat by lia.
    destruct (lookup_lt_is_Some_2 txt k ltac:(lia)) as [x X].
    rewrite (drop_S _ _ _ X). cbn [take].
    unfold peek. rewrite Nat2Z.id, nth_lookup, X. cbn [default].
    rewrite <- app_assoc. reflexivity.
Qed.

Lemma c_string_terminated s r :
  Forall (fun c => c <> zero) s -> c_string (s ++ zero :: r) = s.
Proof.
  induction 1 as [|c s C _ IH]; cbn [app c_string].
  - reflexivity.
  - apply Ascii.eqb_neq in C. rewrite C, IH. reflexivity.
Qed.

(** [_rtxt] right-aligns.  For a length that the buffer holds, what
    [_rtxt] leaves to print is exactly [len] characters when the text
    is not longer: the text after the spaces that fill it up; of a
    longer text it leaves the first [len] characters. *)
Theorem rtxt_right_aligns (b txt : list ascii) (len : Z) :
  Z.of_nat (length b) = buf_size -> 0 <= len < buf_size ->
  Forall (fun c => c <> zero) txt ->
  exists b',
    _rtxt b txt len = Ok b'
    /\ c_string b'
       = repeat " "%char (Z.to_nat (len - Z.of_nat (length txt)))
         ++ take (Z.to_nat len) txt.
Proof.
  intros L Len T. unfold _rtxt. cbv zeta.
  set (J := length txt). set (n := Z.to_nat (len - Z.of_nat J)).
  assert (L' : length b = Z.to_nat buf_size) by lia.
  change 0 with (Z.of_nat 0) at 1.
  rewrite fill_up_spec by (unfold buf_size in *; lia). cbn [bind fst snd].
  rewrite Nat.add_0_l. change (take 0 b) with (@nil ascii). cbn [app].
  set (b1 := repeat _ n ++ drop n b).
  assert (L1 : length b1 = Z.to_nat buf_size)
    by (unfold b1; rewrite length_app, repeat_length, length_drop;
        unfold buf_size in *; lia).
  set (c := Z.to_nat (len - Z.max 0 (len - Z.of_nat J))).
  change 0 with (Z.of_nat 0) at 1.
  assert (C1 : (0 + c <= length txt)%nat) by (fold J; lia).
  assert (C2 : (n + c <= length b1)%nat) by (unfold buf_size in *; lia).
  rewrite (copy_up_spec c txt 0 n b1 C1 C2 L1). cbn [bind fst snd].
  rewrite poke_inside by (unfold buf_size in *; lia).
  eexists. split; [reflexivity|].
  rewrite Nat2Z.id. change (drop 0 txt) with txt.
  assert (Tn : take n b1 = repeat " "%char n).
  { unfold b1. rewrite take_app_length'; [reflexivity|symmetry; apply repeat_length]. }
  assert (Tc : take c txt = take (Z.to_nat len) txt).
  { destruct (Z_le_gt_dec len (Z.of_nat J)).
    - f_equal. lia.
    - rewrite !take_ge by (fold J; lia). reflexivity. }
  assert (LB : length (take c txt) = c) by (rewrite length_take; lia).
  assert (LC : length (drop (n + c) b1) = (Z.to_nat buf_size - (n + c))%nat)
    by (rewrite length_drop; lia).
  rewrite Tn, Tc in *.
  destruct (drop (n + c) b1) as [|x r];
    [cbn [length] in LC; unfold buf_size in *; lia|].
  replace (n + c)%nat
    with (length (repeat " "%char n) + (length (take (Z.to_nat len) txt) + 0))%nat
    by (rewrite repeat_length; lia).
  rewrite !insert_app_r. cbn [insert list_insert].
  rewrite app_assoc. apply c_string_terminated.
  apply Forall_app. split.
  - apply List.Forall_forall. intros y ->%repeat_spec. discriminate.
  - apply Forall_take, T.
Qed.

Lemma rtxt_right_aligns_witness :
  let b := repeat "x"%char 17 in
  let txt := list_ascii_of_string "Delay" in
  Z.of_nat (length b) = buf_size /\ 0 <= 11 < buf_size
  /\ Forall (fun c => c <> zero) txt
  /\ exists b',
       _rtxt b txt 11 = Ok b'
       /\ c_string b'
          = repeat " "%char (Z.to_nat (11 - Z.of_nat (length txt)))
            ++ take (Z.to_nat 11) txt.
Proof.
  intros b txt.
  assert (L : Z.of_nat (length b) = buf_size) by reflexivity.
  assert (N : 0 <= 11 < buf_size) by (unfold buf_size; lia).
  assert (T : Forall (fun c => c <> zero) txt)
    by (repeat (constructor; [discriminate|]); constructor).
  split; [exact L|]. split; [exact N|]. split; [exact T|].
  exact (rtxt_right_aligns b txt 11 L N T).
Defined.

Lemma put_bits_Ok n integer bits p b :
  (p + n <= length b)%nat -> length b = Z.to_nat buf_size ->
  exists q b',
    put_bits n integer bits (Z.of_nat p) (Z.of_nat p) b = Ok (Z.of_nat q, Z.of_nat q, b')
    /\ (p <= q <= p + n)%nat /\ length b' = Z.to_nat buf_size.
Proof.
  revert p b. induction n as [|n IH]; intros p b N L; cbn [put_bits].
  - exists p, b. split; [reflexivity|]. split; [lia|exact L].
  - destruct (negb (Z.land bits (Z.shiftl 1 (Z.of_nat n)) =? 0)).
    + cbv zeta. rewrite poke_inside by (unfold buf_size in *; lia). cbn [bind].
      replace (Z.of_nat p + 1) with (Z.of_nat (S p)) by lia.
      destruct (IH (S p) (<[Z.to_nat (Z.of_nat p) :=
                            if negb (Z.land integer (Z.shiftl 1 (Z.of_nat n)) =? 0)
                            then "1"%char else "0"%char]> b))
        as (q & b' & E & Q & L'); [rewrite length_insert; lia|rewrite length_insert; exact L|].
      exists q, b'. split; [exact E|]. split; [lia|exact L'].
    + destruct (IH p b) as (q & b' & E & Q & L'); [lia|exact L|].
      exists q, b'. split; [exact E|]. split; [lia|exact L'].
Qed.

Lemma shift_right_Ok n k ptr b :
  length b = Z.to_nat buf_size -> ptr < buf_size -> 0 <= ptr - Z.of_nat n + 1 ->
  exists b',
    shift_right n k ptr b = Ok (ptr - Z.of_nat n, b')
    /\ length b' = Z.to_nat buf_size.
Proof.
  revert k ptr b. induction n as [|n IH]; intros k ptr b L P N; cbn [shift_right].
  - exists b. split; [|exact L]. do 2 f_equal. lia.
  - rewrite poke_inside by lia. cbn [bind].
    destruct (IH (k - 1) (ptr - 1) (<[Z.to_nat ptr := peek b k]> b)) as (b' & E & L');
      [rewrite length_insert; exact L|lia|lia|].
    exists b'. split; [|exact L']. rewrite E. do 2 f_equal. lia.
Qed.

Lemma fill_down_underflow n c ptr b :
  -1 <= ptr < buf_size -> ptr + 1 < Z.of_nat n ->
  fill_down n c ptr b = Undefined (StoreOutside "buf" (-1)).
Proof.
  revert ptr b. induction n as [|n IH]; intros ptr b P N; cbn [fill_down].
  - lia.
  - destruct (Z.eq_dec ptr (-1)) as [->|Ne].
    + reflexivity.
    + rewrite poke_inside by lia. cbn [bind]. apply IH; lia.
Qed.

(** [_itob] stores before its buffer.  After the bits are shifted to
    the right, the last loop writes as many spaces as the string is
    long, plus one, downwards from the character before the bits: for
    every value, mask and length within the buffer, it reaches the
    byte before [_buf]. *)
Theorem itob_stores_before_buffer (b : list ascii) (integer bits len : Z) :
  Z.of_nat (length b) = buf_size -> len < buf_size ->
  _itob b integer bits len = Undefined (StoreOutside "buf" (-1)).
Proof.
  intros L Len. assert (L' : length b = Z.to_nat buf_size) by lia.
  unfold _itob. rewrite poke_inside by (unfold buf_size; lia). cbn [bind].
  destruct (put_bits_Ok 8 integer bits 1 (<[Z.to_nat 0 := "B"%char]> b))
    as (q & b1 & E & Q & L1);
    [rewrite length_insert; unfold buf_size in *; lia|rewrite length_insert; exact L'|].
  change (Z.of_nat 1) with 1 in E. rewrite E. cbn [bind]. cbv beta iota zeta.
  rewrite fill_up_spec by (unfold buf_size in *; lia). cbn [bind fst snd].
  set (b2 := take q b1 ++ _).
  assert (L2 : length b2 = Z.to_nat buf_size).
  { unfold b2. rewrite !length_app, length_take, repeat_length, length_drop.
    unfold buf_size in *. lia. }
  rewrite poke_inside by (unfold buf_size in *; lia). cbn [bind].
  set (top := Z.of_nat (q + Z.to_nat (len - Z.of_nat q))).
  destruct (shift_right_Ok (Z.to_nat (Z.of_nat q - 1 + 1)) (Z.of_nat q - 1) (top - 1)
              (<[Z.to_nat top := zero]> b2)) as (b3 & S & L3);
    [rewrite length_insert; exact L2|unfold top, buf_size in *; lia|unfold top; lia|].
  rewrite S. cbn [bind fst snd].
  rewrite fill_down_underflow; [reflexivity| |]; unfold top, buf_size in *; lia.
Qed.

Lemma itob_stores_before_buffer_witness :
  Z.of_nat (length (repeat zero 17)) = buf_size /\ 10 < buf_size
  /\ _itob (repeat zero 17) 248 248 10 = Undefined (StoreOutside "buf" (-1)).
Proof.
  assert (L : Z.of_nat (length (repeat zero 17)) = buf_size) by reflexivity.
  assert (N : 10 < buf_size) by reflexivity.
  split; [exact L|]. split; [exact N|].
  exact (itob_stores_before_buffer (repeat zero 17) 248 248 10 L N).
Defined.

Lemma digits_length fuel n acc :
  (length (digits fuel n acc) <= fuel + length acc)%nat.
Proof.
  revert n acc. induction fuel as [|fuel IH]; intros n acc; cbn [digits].
  - lia.
  - cbv zeta. destruct (n / 10 =? 0).
    + cbn [length]. lia.
    + specialize (IH (n / 10) (digit (n mod 10) :: acc)). cbn [length] in IH. lia.
Qed.

Lemma ltoa_length val : (length (ltoa val) <= 11)%nat.
Proof.
  unfold ltoa. destruct (val <? 0).
  - pose proof (digits_length 10 (- val) []). cbn [length] in *. lia.
  - pose proof (digits_length 10 val []). cbn [length] in *. lia.
Qed.

Lemma c_string_length s r : (length (c_string (s ++ zero :: r)) <= length s)%nat.
Proof.
  induction s as [|c s IH]; cbn [app c_string length].
  - reflexivity.
  - destruct (Ascii.eqb c zero); cbn [length]; lia.
Qed.

(** [_itoa] stores before its buffer, as [_itob] does: whatever the
    number and the length, its last loop writes two spaces more than
    there are characters to the left of the digits. *)
Theorem itoa_stores_before_buffer (b : list ascii) (i len : Z) :
  Z.of_nat (length b) = buf_size ->
  _itoa b i len = Undefined (StoreOutside "buf" (-1)).
Proof.
  intros L. assert (L' : length b = Z.to_nat buf_size) by lia.
  unfold _itoa. cbv zeta.
  set (len' := if len >? 15 then 15 else len).
  assert (Len : len' <= 15) by (unfold len'; destruct (Z.gtb_spec len 15); lia).
  set (num := ltoa (long_of_ulong i)).
  pose proof (ltoa_length (long_of_ulong i)) as N. fold num in N.
  change 0 with (Z.of_nat 0) at 1 2.
  rewrite copy_up_spec by (unfold buf_size in *; lia). cbn [bind fst snd].
  rewrite poke_inside by (unfold buf_size in *; lia). cbn [bind].
  rewrite Nat.add_0_l, Nat2Z.id. change (take 0 b) with (@nil ascii).
  change (drop 0 num) with num. rewrite firstn_all. cbn [app].
  assert (D : exists x r, drop (length num) b = x :: r).
  { destruct (drop (length num) b) as [|x r] eqn:E; [|eauto].
    apply (f_equal length) in E. rewrite length_drop in E.
    cbn [length] in E. unfold buf_size in *. lia. }
  destruct D as (x & r & D). rewrite D.
  assert (I : <[length num := zero]> (num ++ x :: r) = num ++ zero :: r).
  { replace (length num) with (length num + 0)%nat at 1 by lia.
    rewrite insert_app_r. reflexivity. }
  rewrite I. clear I.
  set (b1 := num ++ zero :: r).
  assert (L1 : length b1 = Z.to_nat buf_size).
  { unfold b1. rewrite length_app. cbn [length].
    apply (f_equal length) in D. rewrite length_drop in D. cbn [length] in D. lia. }
  pose proof (c_string_length num r) as J. fold b1 in J.
  set (j := length (c_string b1)) in *.
  rewrite fill_up_spec by (unfold buf_size in *; lia). cbn [bind fst snd].
  set (b2 := take j b1 ++ _).
  assert (L2 : length b2 = Z.to_nat buf_size).
  { unfold b2. rewrite !length_app, length_take, repeat_length, length_drop.
    unfold buf_size in *. lia. }
  rewrite poke_inside by (unfold buf_size in *; lia). cbn [bind].
  set (top := Z.of_nat (j + Z.to_nat (len' - Z.of_nat j))).
  destruct (shift_right_Ok (Z.to_nat (Z.of_nat j - 1 + 1)) (Z.of_nat j - 1) (top - 1)
              (<[Z.to_nat top := zero]> b2)) as (b3 & S & L3);
    [rewrite length_insert; exact L2|unfold top, buf_size in *; lia|unfold top; lia|].
  rewrite S. cbn [bind fst snd].
  rewrite fill_down_underflow; [reflexivity| |]; unfold top, buf_size in *; lia.
Qed.

Lemma itoa_stores_before_buffer_witness :
  Z.of_nat (length (repeat zero 17)) = buf_size
  /\ _itoa (repeat zero 17) 228 10 = Undefined (StoreOutside "buf" (-1)).
Proof.
  assert (L : Z.of_nat (length (repeat zero 17)) = buf_size) by reflexivity.
  split; [exact L|].
  exact (itoa_stores_before_buffer (repeat zero 17) 228 10 L).
Defined.


Lemma digits_small fuel k n acc :
  (1 <= k)%nat -> 0 <= n < 10 ^ Z.of_nat k ->
  (length (digits fuel n acc) <= k + length acc)%nat.
Proof.
  revert k n acc. induction fuel as [|fuel IH]; intros k n acc K N; cbn [digits].
  - lia.
  - cbv zeta. destruct (Z.eqb_spec (n / 10) 0) as [E|E].
    + cbn [length]. lia.
    + destruct k as [|[|k]]; [lia| |].
      * change (10 ^ Z.of_nat 1) with 10 in N.
        rewrite Z.div_small in E by lia. contradiction.
      * specialize (IH (S k) (n / 10) (digit (n mod 10) :: acc) ltac:(lia)).
        cbn [length] in IH.
        assert (0 <= n / 10 < 10 ^ Z.of_nat (S k)); [|lia].
        split; [apply Z.div_pos; lia|].
        apply Z.div_lt_upper_bound; [lia|].
        rewrite <- Z.pow_succ_r by lia.
        replace (Z.succ (Z.of_nat (S k))) with (Z.of_nat (S (S k))) by lia. lia.
Qed.

Lemma digits_nonzero fuel n acc :
  Forall (fun c => c <> zero) acc -> Forall (fun c => c <> zero) (digits fuel n acc).
Proof.
  revert n acc. induction fuel as [|fuel IH]; intros n acc A; cbn [digits].
  - exact A.
  - cbv zeta.
    assert (D : Forall (fun c => c <> zero) (digit (n mod 10) :: acc)).
    { constructor; [|exact A]. unfold digit.
      pose proof (Z.mod_pos_bound n 10 ltac:(lia)) as B.
      assert (C : (Z.to_nat (n mod 10) < 10)%nat) by lia.
      destruct (Z.to_nat (n mod 10)) as [|[|[|[|[|[|[|[|[|[|]]]]]]]]]];
        try discriminate. lia. }
    destruct (n / 10 =? 0); [exact D|apply IH, D].
Qed.

Lemma itoa_length val : (length (itoa val) <= 6)%nat.
Proof.
  unfold itoa, ltoa. pose proof (IntFacts.s16_range val) as R.
  set (v := Int.s16 val) in *. destruct (Z.ltb_spec v 0).
  - pose proof (digits_small 10 5 (- v) [] ltac:(lia)
                  ltac:(change (10 ^ Z.of_nat 5) with 100000; lia)).
    cbn [length] in *. lia.
  - pose proof (digits_small 10 5 v [] ltac:(lia)
                  ltac:(change (10 ^ Z.of_nat 5) with 100000; lia)).
    cbn [length] in *. lia.
Qed.

Lemma ltoa_nonzero val : Forall (fun c => c <> zero) (ltoa val).
Proof.
  unfold ltoa. destruct (val <? 0).
  - constructor; [discriminate|]. apply digits_nonzero. constructor.
  - apply digits_nonzero. constructor.
Qed.

Lemma copy_after pre rest s :
  length (pre ++ rest) = Z.to_nat buf_size -> (length s <= length rest)%nat ->
  copy_up (length s) s 0 (Z.of_nat (length pre)) (pre ++ rest)
  = Ok (Z.of_nat (length pre + length s), pre ++ s ++ drop (length s) rest).
Proof.
  intros L N. change 0 with (Z.of_nat 0).
  rewrite copy_up_spec; [|lia|rewrite length_app; lia|exact L].
  rewrite take_app_length, drop_app_add. change (drop 0 s) with s.
  rewrite firstn_all. reflexivity.
Qed.

Lemma fill_after pre rest c n :
  length (pre ++ rest) = Z.to_nat buf_size -> (n <= length rest)%nat ->
  fill_up n c (Z.of_nat (length pre)) (pre ++ rest)
  = Ok (Z.of_nat (length pre + n), pre ++ repeat c n ++ drop n rest).
Proof.
  intros L N.
  rewrite fill_up_spec; [|rewrite length_app; lia|exact L].
  rewrite take_app_length, drop_app_add. reflexivity.
Qed.

Lemma poke_after pre x r c :
  length (pre ++ x :: r) = Z.to_nat buf_size ->
  poke (pre ++ x :: r) (Z.of_nat (length pre)) c = Ok (pre ++ c :: r).
Proof.
  intros L. rewrite length_app in L. cbn [length] in L.
  rewrite poke_inside by (unfold buf_size in *; lia).
  rewrite Nat2Z.id. replace (length pre) with (length pre + 0)%nat at 1 by lia.
  rewrite insert_app_r. reflexivity.
Qed.

Lemma uncons {A : Type} (l : list A) :
  (0 < length l)%nat -> exists x r, l = x :: r.
Proof. destruct l as [|x r]; cbn [length]; [lia|eauto]. Qed.

Lemma copy_first b s :
  length b = Z.to_nat buf_size -> (length s <= length b)%nat ->
  copy_up (length s) s 0 0 b = Ok (Z.of_nat (length s), s ++ drop (length s) b).
Proof. intros L N. exact (copy_after [] b s L N). Qed.

(** What the first part of [_ftoa] has written when its casts are
    defined: the digits of the integral part and, unless the precision
    is zero, the point and the digits of the fraction as [itoa] gives
    them, with [precision - 1] zeros more when the fraction is zero. *)
Lemma ftoa_number_spec beside_p b f precision ip :
  length b = Z.to_nat buf_size -> to_long f = Some ip ->
  let p' := if precision >? 5 then 5 else precision in
  let s1 := itoa ip in
  if p' =? 0
  then exists rest,
         _ftoa_number beside_p b f precision = Ok (Z.of_nat (length s1), s1 ++ rest)
         /\ length (s1 ++ rest) = Z.to_nat buf_size
  else match to_long (F32.mul (SFsub F32.prec F32.emax f (F32.of_Z ip))
                              (F32.of_Z (p_at beside_p p'))) with
       | None => _ftoa_number beside_p b f precision = Undefined CastOutOfRange
       | Some fr =>
           let text := s1 ++ "."%char :: itoa (Z.abs fr)
                       ++ (if Z.abs fr =? 0
                           then repeat "0"%char (Z.to_nat (p' - 1)) else []) in
           exists rest,
             _ftoa_number beside_p b f precision
             = Ok (Z.of_nat (length text), text ++ rest)
             /\ length (text ++ rest) = Z.to_nat buf_size
       end.
Proof.
  intros L F p' s1. unfold _ftoa_number. cbv zeta. fold p'.
  rewrite F. cbn [cast bind]. fold s1.
  assert (P5 : p' <= 5) by (unfold p'; destruct (Z.gtb_spec precision 5); lia).
  pose proof (itoa_length ip) as N1. fold s1 in N1.
  pose proof (ltoa_nonzero (Int.s16 ip)) as Z1. fold (itoa ip) in Z1. fold s1 in Z1.
  rewrite copy_first by (unfold buf_size in *; lia).
  cbn [bind fst snd].
  destruct (uncons (drop (length s1) b)) as (x & r & D);
    [rewrite length_drop; unfold buf_size in *; lia|].
  rewrite D.
  assert (L1 : length (s1 ++ x :: r) = Z.to_nat buf_size).
  { rewrite length_app, <- D, length_drop. unfold buf_size in *. lia. }
  rewrite poke_after by exact L1. cbn [bind].
  rewrite c_string_terminated by exact Z1.
  assert (L2 : length (s1 ++ zero :: r) = Z.to_nat buf_size)
    by (rewrite length_app in *; exact L1).
  destruct (Z.eqb_spec p' 0) as [E0|N0].
  { exists (zero :: r). split; [reflexivity|exact L2]. }
  rewrite poke_after by exact L2. cbn [bind].
  destruct (to_long (F32.mul _ _)) as [fr|]; [|reflexivity].
  cbn [cast bind]. set (s2 := itoa (Z.abs fr)).
  pose proof (itoa_length (Z.abs fr)) as N2. fold s2 in N2.
  pose proof (ltoa_nonzero (Int.s16 (Z.abs fr))) as Z2.
  fold (itoa (Z.abs fr)) in Z2. fold s2 in Z2.
  set (pre := s1 ++ ["."%char]).
  assert (Lp : length pre = S (length s1))
    by (unfold pre; rewrite length_app; cbn [length]; lia).
  replace (Z.of_nat (length s1) + 1) with (Z.of_nat (length pre)) by lia.
  replace (s1 ++ "."%char :: r) with (pre ++ r)
    by (unfold pre; rewrite <- app_assoc; reflexivity).
  assert (Lr : length (pre ++ r) = Z.to_nat buf_size)
    by (rewrite length_app in *; cbn [length] in *; lia).
  rewrite copy_after by (try exact Lr; rewrite length_app in Lr; unfold buf_size in *; lia).
  cbn [bind fst snd].
  destruct (uncons (drop (length s2) r)) as (y & r2 & D2);
    [rewrite length_drop; rewrite length_app in Lr; unfold buf_size in *; lia|].
  rewrite D2.
  assert (L3 : length ((pre ++ s2) ++ y :: r2) = Z.to_nat buf_size).
  { rewrite !length_app, <- D2, length_drop. rewrite length_app in Lr.
    unfold buf_size in *. lia. }
  replace (pre ++ s2 ++ y :: r2) with ((pre ++ s2) ++ y :: r2)
    by (rewrite <- app_assoc; reflexivity).
  replace (Z.of_nat (length pre + length s2)) with (Z.of_nat (length (pre ++ s2)))
    by (rewrite length_app; reflexivity).
  rewrite poke_after by exact L3. cbn [bind].
  rewrite Nat2Z.id, <- app_assoc, drop_app_length.
  rewrite c_string_terminated by exact Z2.
  assert (L4 : length ((pre ++ s2) ++ zero :: r2) = Z.to_nat buf_size)
    by (rewrite !length_app in *; exact L3).
  destruct (Z.eqb_spec (Z.abs fr) 0) as [Ef|Nf].
  - assert (S2 : length s2 = 1%nat) by (unfold s2; rewrite Ef; reflexivity).
    replace (Z.of_nat (length pre) + Z.of_nat (length s2))
      with (Z.of_nat (length (pre ++ s2))) by (rewrite length_app; lia).
    rewrite app_assoc.
    rewrite fill_after
      by (try exact L4; rewrite !length_app in L4; cbn [length] in *;
          unfold buf_size in *; lia).
    cbn [bind fst snd].
    exists (drop (Z.to_nat (p' - 1)) (zero :: r2)).
    assert (T : s1 ++ "."%char :: s2 ++ repeat "0"%char (Z.to_nat (p' - 1))
                = (pre ++ s2) ++ repeat "0"%char (Z.to_nat (p' - 1))).
    { unfold pre. rewrite <- !app_assoc. reflexivity. }
    rewrite T. rewrite (length_app (pre ++ s2)), repeat_length.
    rewrite <- (app_assoc (pre ++ s2)). split; [reflexivity|].
    rewrite !length_app, repeat_length, length_drop.
    rewrite !length_app in L4. cbn [length] in *. unfold buf_size in *. lia.
  - exists (zero :: r2).
    assert (T : s1 ++ "."%char :: s2 ++ [] = pre ++ s2).
    { unfold pre. rewrite app_nil_r, <- app_assoc. reflexivity. }
    rewrite T. rewrite length_app at 1.
    rewrite app_assoc. split; [|exact L4].
    do 2 f_equal. lia.
Qed.

Lemma ftoa_tail beside_p b f precision len n b' :
  _ftoa_number beside_p b f precision = Ok (Z.of_nat n, b') ->
  length b' = Z.to_nat buf_size -> (n < Z.to_nat buf_size)%nat -> len < buf_size ->
  _ftoa beside_p b f precision len = Undefined (StoreOutside "buf" (-1)).
Proof.
  intros E L N Len. unfold _ftoa. rewrite E. cbn [bind fst snd]. cbv zeta.
  rewrite fill_up_spec by (unfold buf_size in *; lia). cbn [bind fst snd].
  set (b2 := take n b' ++ _).
  assert (L2 : length b2 = Z.to_nat buf_size).
  { unfold b2. rewrite !length_app, length_take, repeat_length, length_drop.
    unfold buf_size in *. lia. }
  rewrite poke_inside by (unfold buf_size in *; lia). cbn [bind].
  set (top := Z.of_nat (n + Z.to_nat (len - Z.of_nat n))).
  destruct (shift_right_Ok (Z.to_nat (Z.of_nat n - 1 + 1)) (Z.of_nat n - 1) (top - 1)
              (<[Z.to_nat top := zero]> b2)) as (b3 & S & L3);
    [rewrite length_insert; exact L2|unfold top, buf_size in *; lia|unfold top; lia|].
  rewrite S. cbn [bind fst snd].
  rewrite fill_down_underflow; [reflexivity| |]; unfold top, buf_size in *; lia.
Qed.

(** [_ftoa] never completes within its buffer.  For a 17-byte buffer
    and a length up to 16, every number and every precision either
    meet a cast that C leaves undefined, or make the last loop store a
    space in front of [_buf]. *)
Theorem ftoa_stores_before_buffer (beside_p : Z -> Z) (b : list ascii)
  (f : F32.float) (precision len : Z) :
  Z.of_nat (length b) = buf_size -> len < buf_size ->
  _ftoa beside_p b f precision len = Undefined (StoreOutside "buf" (-1))
  \/ (_ftoa_number beside_p b f precision = Undefined CastOutOfRange
      /\ _ftoa beside_p b f precision len = Undefined CastOutOfRange).
Proof.
  intros L Len. assert (L' : length b = Z.to_nat buf_size) by lia.
  destruct (to_long f) as [ip|] eqn:F.
  2:{ right. unfold _ftoa, _ftoa_number. cbv zeta. rewrite F. split; reflexivity. }
  pose proof (ftoa_number_spec beside_p b f precision ip L' F) as S. cbv zeta in S.
  pose proof (itoa_length ip) as N1.
  set (p' := if precision >? 5 then 5 else precision) in *.
  assert (P5 : p' <= 5) by (unfold p'; destruct (Z.gtb_spec precision 5); lia).
  destruct (p' =? 0).
  - destruct S as (rest & E & LR). left.
    apply (ftoa_tail _ _ _ _ _ _ _ E LR); [unfold buf_size; lia|exact Len].
  - destruct (to_long (F32.mul _ _)) as [fr|].
    + destruct S as (rest & E & LR). left.
      apply (ftoa_tail _ _ _ _ _ _ _ E LR); [|exact Len].
      pose proof (itoa_length (Z.abs fr)) as N2.
      rewrite length_app. cbn [length]. rewrite length_app.
      destruct (Z.eqb_spec (Z.abs fr) 0) as [Ef|Nf].
      * rewrite Ef in *. change (length (itoa 0)) with 1%nat.
        rewrite repeat_length. unfold buf_size. lia.
      * cbn [length]. unfold buf_size. lia.
    + right. split; [exact S|]. unfold _ftoa. rewrite S. reflexivity.
Qed.

Lemma ftoa_stores_before_buffer_witness :
  Z.of_nat (length (repeat zero 17)) = buf_size /\ 10 < buf_size
  /\ (_ftoa (fun _ => 0) (repeat zero 17) (F32.of_scaled 65 (-4)) 4 10
      = Undefined (StoreOutside "buf" (-1))
      \/ (_ftoa_number (fun _ => 0) (repeat zero 17) (F32.of_scaled 65 (-4)) 4
          = Undefined CastOutOfRange
          /\ _ftoa (fun _ => 0) (repeat zero 17) (F32.of_scaled 65 (-4)) 4 10
             = Undefined CastOutOfRange)).
Proof.
  assert (L : Z.of_nat (length (repeat zero 17)) = buf_size) by reflexivity.
  assert (N : 10 < buf_size) by reflexivity.
  split; [exact L|]. split; [exact N|].
  exact (ftoa_stores_before_buffer (fun _ => 0) (repeat zero 17)
           (F32.of_scaled 65 (-4)) 4 10 L N).
Defined.

Lemma round_trip_low_witness :
  0 <= 228 <= 32709 /\ MicrosToTicks (TicksToMicros 228) = Some 228.
Proof.
  assert (H : 0 <= 228 <= 32709) by lia.
  split; [exact H|].
  exact (round_trip_low 228 H).
Defined.

Lemma ftoa_casts_hold (t : Z) : 0 <= t <= 32709 -> ftoa_casts t = true.
Proof.
  intros H.
  assert (A : holds_from ftoa_casts (Z.to_nat 32710) 0 = true)
    by (vm_compute; reflexivity).
  apply (holds_from_spec _ _ _ t) in A; [exact A|lia].
Qed.

(** [_ftoa] drops the leading zeros of the fraction.  For the time of
    [t] ticks, which is [q + r/16] microseconds, the text that [_ftoa]
    writes at four decimal places is the digits of [q], a point and
    the digits of [625 * r] as [itoa] gives them: for one sixteenth,
    0.0625 us, it shows [.625]; only a fraction of zero is filled up,
    to [.0000]. *)
Theorem ftoa_drops_leading_zeros (beside_p : Z -> Z) (b : list ascii) (t : Z) :
  Z.of_nat (length b) = buf_size -> 0 <= t <= 32709 ->
  let q := (t + TimerOffset) / 16 in
  let r := (t + TimerOffset) mod 16 in
  let text := ltoa q ++ "."%char
                :: (if r =? 0 then list_ascii_of_string "0000" else ltoa (625 * r)) in
  TicksToMicros t = F32.of_scaled (16 * q + r) (-4)
  /\ exists rest,
       _ftoa_number beside_p b (TicksToMicros t) 4
       = Ok (Z.of_nat (length text), text ++ rest).
Proof.
  intros L T q r text.
  assert (L' : length b = Z.to_nat buf_size) by lia.
  pose proof (ftoa_casts_hold t T) as C. unfold ftoa_casts in C. cbv zeta in C.
  fold q r in C. rewrite TicksToMicros_exact by exact T.
  assert (QR : t + TimerOffset = 16 * q + r)
    by (unfold q, r; apply Z.div_mod; lia).
  split; [rewrite QR; reflexivity|].
  destruct (to_long (F32.of_scaled (t + TimerOffset) (-4))) as [a|] eqn:F1;
    [|discriminate].
  destruct (to_long (F32.mul _ _)) as [c|] eqn:F2; [|discriminate].
  apply andb_true_iff in C as [->%Z.eqb_eq ->%Z.eqb_eq].
  pose proof (ftoa_number_spec beside_p b _ 4 q L' F1) as S. cbv zeta in S.
  change (if 4 >? 5 then 5 else 4) with 4 in S. change (4 =? 0) with false in S.
  change (p_at beside_p 4) with 10000 in S. cbv iota in S. rewrite F2 in S.
  assert (Rr : 0 <= r < 16) by (unfold r; apply Z.mod_pos_bound; lia).
  assert (Qr : 0 <= q <= 2047).
  { unfold q, TimerOffset. split; [apply Z.div_pos; lia|].
    apply Z.lt_succ_r, Z.div_lt_upper_bound; lia. }
  rewrite Z.abs_eq in S by lia.
  unfold itoa in S. rewrite !IntFacts.s16_id in S by lia.
  destruct S as (rest & E & _). exists rest.
  replace (ltoa (625 * r) ++ (if 625 * r =? 0 then repeat "0"%char (Z.to_nat (4 - 1)) else []))
    with (if r =? 0 then list_ascii_of_string "0000" else ltoa (625 * r)) in E.
  - exact E.
  - destruct (Z.eqb_spec r 0) as [E0|N].
    + rewrite E0. reflexivity.
    + destruct (Z.eqb_spec (625 * r) 0); [lia|]. now rewrite app_nil_r.
Qed.

Lemma ftoa_drops_leading_zeros_witness :
  let b := repeat zero 17 in
  let q := (7 + TimerOffset) / 16 in
  let r := (7 + TimerOffset) mod 16 in
  let text := ltoa q ++ "."%char
                :: (if r =? 0 then list_ascii_of_string "0000" else ltoa (625 * r)) in
  Z.of_nat (length b) = buf_size /\ 0 <= 7 <= 32709
  /\ text = list_ascii_of_string "4.625"
  /\ TicksToMicros 7 = F32.of_scaled (16 * q + r) (-4)
  /\ exists rest,
       _ftoa_number (fun _ => 0) b (TicksToMicros 7) 4
       = Ok (Z.of_nat (length text), text ++ rest).
Proof.
  intros b q r text.
  assert (L : Z.of_nat (length b) = buf_size) by reflexivity.
  assert (T : 0 <= 7 <= 32709) by lia.
  split; [exact L|]. split; [exact T|]. split; [reflexivity|].
  exact (ftoa_drops_leading_zeros (fun _ => 0) b 7 L T).
Defined.
